(** * Annotation tool: tag tokenizer, stream builder, annotation store

    A shallow embedding of [utils.py] and of the request handlers of [app.py],
    with the properties of the tokenizer, of the stream builder, of the
    username sanitizer, of the row lookup and of the JSON store. *)

From Stdlib Require Import String Ascii NArith ZArith DecimalString DecimalNat.
From stdpp Require Import base list gmap sorting.

Local Open Scope nat_scope.

(** ** Strings

    A Python [str] is a sequence of Unicode code points.  A character is its
    code point, a string a list of them, so that [len], indexing and slicing
    count code points as Python does. *)

Module Str.

Abbreviation str := (list N) (only parsing).

(** A literal of the development, read as code points (ASCII literals only). *)
Fixpoint of_string (s : string) : str :=
  match s with
  | EmptyString => []
  | String a r => N_of_ascii a :: of_string r
  end.

(** [str.isspace] on one character: the code points CPython lists as
    whitespace ([_PyUnicode_IsWhitespace]). *)
Definition isspace (c : N) : bool :=
  ((9 <=? c) && (c <=? 13) || (28 <=? c) && (c <=? 32)
   || (c =? 133) || (c =? 160) || (c =? 5760)
   || (8192 <=? c) && (c <=? 8202)
   || (c =? 8232) || (c =? 8233) || (c =? 8239) || (c =? 8287)
   || (c =? 12288))%N.

Fixpoint lstrip (s : str) : str :=
  match s with
  | [] => []
  | c :: r => if isspace c then lstrip r else s
  end.

Definition rstrip (s : str) : str := rev (lstrip (rev s)).

(** [s.strip()] *)
Definition strip (s : str) : str := rstrip (lstrip s).

(** [s[a:b]] for non-negative [a] and [b]; Python clamps both to [len(s)]
    and yields the empty string when [b <= a]. *)
Definition slice (s : str) (a b : nat) : str := take (b - a) (drop a s).

(** [str(n)] for a non-negative integer, as in an f-string. *)
Definition of_nat (n : nat) : str :=
  of_string (NilZero.string_of_uint (Nat.to_uint n)).

End Str.
Import Str.

(** ** The tag pattern

    [TAG_PATTERN = re.compile(r"\[([^\[\]]+)\]")]: an opening bracket, a
    greedy non-empty run of characters that are not brackets (group 1), a
    closing bracket. *)

Module Re.

Definition lbracket : N := 91.
Definition rbracket : N := 93.

(** The class [[^\[\]]]: any character but the two brackets (a negated
    class also matches a newline). *)
Definition nonbracket (c : N) : bool :=
  negb (c =? lbracket)%N && negb (c =? rbracket)%N.

(** The greedy run [[^\[\]]*] at the head of [s], and what follows it. *)
Fixpoint span_nonbracket (s : str) : str * str :=
  match s with
  | [] => ([], [])
  | c :: r =>
      if nonbracket c
      then let '(run, rest) := span_nonbracket r in (c :: run, rest)
      else ([], s)
  end.

(** The pattern anchored at the head of [s]: group 1 and the text after
    the match.  The run is followed by a bracket or by the end of the
    text, so giving characters back never helps: the greedy attempt
    decides. *)
Definition match_here (s : str) : option (str * str) :=
  match s with
  | c :: r =>
      if (c =? lbracket)%N then
        match span_nonbracket r with
        | ((_ :: _) as run, c' :: rest) =>
            if (c' =? rbracket)%N then Some (run, rest) else None
        | _ => None
        end
      else None
  | [] => None
  end.

(** A match object: [m.start()], [m.end()], [m.group(1)]. *)
Record rmatch := { m_start : nat; m_end : nat; m_group1 : str }.

(** [finditer]: the leftmost match from the current position, then the
    search resumes at its end; a position with no match is skipped.  [s]
    is the text from offset [pos] on.  One unit of fuel is spent per
    position tried. *)
Fixpoint finditer_from (fuel pos : nat) (s : str) : list rmatch :=
  match fuel with
  | 0 => []
  | S fuel' =>
      match s with
      | [] => []
      | _ :: r =>
          match match_here s with
          | Some (g, rest) =>
              let e := pos + (length g + 2) in
              {| m_start := pos; m_end := e; m_group1 := g |}
                :: finditer_from fuel' e rest
          | None => finditer_from fuel' (S pos) r
          end
      end
  end.

(** [TAG_PATTERN.finditer(s)]: a text of [n] characters has [n] positions
    to try. *)
Definition finditer (s : str) : list rmatch :=
  finditer_from (length s) 0 s.

(** [TAG_PATTERN.findall(s)]: with one group, the list of group 1. *)
Definition findall (s : str) : list str := m_group1 <$> finditer s.

End Re.
Import Re.

(** ** Python values

    The values the handlers meet in a cell of the data frame: [None] (a
    column that [load_dataset] added), a string, NaN (what [read_excel]
    gives for a blank cell) and an integer. *)

Inductive pyval :=
| PyNone
| PyStr (s : str)
| PyNaN
| PyInt (z : Z).

(** Python truthiness: [None], the empty string and zero are false; NaN is
    a float other than zero, hence true. *)
Definition truthy (v : pyval) : bool :=
  match v with
  | PyNone => false
  | PyStr s => match s with [] => false | _ => true end
  | PyNaN => true
  | PyInt z => negb (z =? 0)%Z
  end.

(** [a or b] *)
Definition py_or (a b : pyval) : pyval := if truthy a then a else b.

(** [a or b] where [a] is [None] or a string, as [dict.get] returns. *)
Definition opt_or (a b : option str) : option str :=
  match a with
  | Some (_ :: _) => a
  | _ => b
  end.

(** ** Username sanitizer *)

(** The class [[A-Za-z0-9._-]]. *)
Definition safe_char (c : N) : bool :=
  ((65 <=? c) && (c <=? 90) || (97 <=? c) && (c <=? 122)
   || (48 <=? c) && (c <=? 57)
   || (c =? 46) || (c =? 95) || (c =? 45))%N.

Definition underscore : N := 95.

Definition default_name : str := of_string "annotator".

Definition sanitize_username (name : str) : str :=
  let safe := (fun c => if safe_char c then c else underscore) <$> strip name in
  match safe with
  | [] => default_name
  | _ => safe
  end.

(** ** Inline tag extraction and rendering *)

(** [{"idx": n, "text": tag_text, "start": pos, "end": pos}] *)
Record tag := { t_idx : nat; t_text : str; t_start : nat; t_end : nat }.

(** [enumerate(ms, start=i)] mapped to the dictionaries of [extract_tags]. *)
Fixpoint tags_of_matches (i : nat) (ms : list rmatch) : list tag :=
  match ms with
  | [] => []
  | m :: ms' =>
      {| t_idx := i; t_text := strip (m_group1 m);
         t_start := m_start m; t_end := m_end m |}
        :: tags_of_matches (S i) ms'
  end.

Definition extract_tags (tagged_text : pyval) : list tag :=
  match tagged_text with
  | PyStr s =>
      match strip s with
      | [] => []
      | _ => tags_of_matches 1 (finditer s)
      end
  | _ => []
  end.

(** [{"kind": "text", "text": str}] or
    [{"kind": "tag", "text": tag_text, "idx": int}] *)
Inductive segment :=
| SegText (text : str)
| SegTag (text : str) (idx : nat).

(** The ["text"] entry of a segment. *)
Definition seg_content (g : segment) : str :=
  match g with SegText c => c | SegTag c _ => c end.

(** One turn of the loop [for t in tags] over the state [(stream, last)]. *)
Definition stream_step (text : str) (st : list segment * nat) (t : tag)
  : list segment * nat :=
  let '(stream, last) := st in
  let stream :=
    if last <? t_start t
    then stream ++ [SegText (slice text last (t_start t))]
    else stream in
  (stream ++ [SegTag (t_text t) (t_idx t)], t_end t).

Definition build_inline_stream (tagged_text : pyval) : list segment :=
  let text := match tagged_text with PyStr s => s | _ => [] end in
  match extract_tags (PyStr text) with
  | [] => [SegText text]
  | tags =>
      let '(stream, last) := foldl (stream_step text) ([], 0) tags in
      if last <? length text
      then stream ++ [SegText (drop last text)]
      else stream
  end.

Definition count_tags_in_text (tagged_text : pyval) : nat :=
  match tagged_text with
  | PyStr s => length (findall s)
  | _ => 0
  end.

(** *** What the specification calls a bracket pair

    Offsets [i] and [j] delimit a non-nested bracket pair of [s] when [s[i]]
    is an opening bracket, [s[j-1]] a closing one, and the characters
    between them are one or more non-brackets. *)
Definition is_pair (s : str) (i j : nat) : Prop :=
  s !! i = Some lbracket /\ i + 2 < j /\ s !! (j - 1) = Some rbracket
  /\ forall k, i < k < j - 1 -> exists c, s !! k = Some c /\ nonbracket c = true.

Definition is_pairb (s : str) (i j : nat) : bool :=
  bool_decide (s !! i = Some lbracket) && (i + 2 <? j)
  && bool_decide (s !! (j - 1) = Some rbracket)
  && forallb nonbracket (slice s (S i) (j - 1)).

(** All the bracket pairs of [s], by increasing opening offset. *)
Definition bracket_pairs (s : str) : list (nat * nat) :=
  filter (fun ij => is_pairb s ij.1 ij.2 = true)
    (i ← seq 0 (length s); (fun j => (i, j)) <$> seq 0 (S (length s))).

(** The text a stream stands for: a text segment is its content, a tag
    segment is the part of the source that the tag of that index spans. *)
Definition seg_source (text : str) (tags : list tag) (g : segment) : str :=
  match g with
  | SegText c => c
  | SegTag _ i =>
      match tags !! (i - 1) with
      | Some t => slice text (t_start t) (t_end t)
      | None => []
      end
  end.

Definition is_text (g : segment) : bool :=
  match g with SegText _ => true | SegTag _ _ => false end.

(** The tag segments of a stream, in order. *)
Definition tag_segments (st : list segment) : list segment :=
  filter (fun g => is_text g = false) st.

(** No two text segments in a row. *)
Fixpoint alternates (st : list segment) : bool :=
  match st with
  | SegText _ :: ((SegText _ :: _) as r) => false
  | _ :: r => alternates r
  | [] => true
  end.

(** ** Rows of the data frame *)

(** Column names of the data frame. *)
Definition col_default_model : str := of_string "gpt4o_layer2_annotations".
Definition col_translation : str := of_string "English Translation".
Definition col_transcript_no : str := of_string "Transcript No".
Definition col_title : str := of_string "Title".
Definition col_stance : str := of_string "Stance".

(** [df_row.get(key)]: the cell of that column, [None] when the row has no
    such column (and for the key [None]). *)
Definition row_get (df_row : gmap (list N) pyval) (key : option str) : pyval :=
  match key with
  | Some c => default PyNone (df_row !! c)
  | None => PyNone
  end.

(** [df_row.get(model) or df_row.get("gpt4o_layer2_annotations")
     or df_row.get("English Translation") or ""] *)
Definition tagged_text_of (df_row : gmap (list N) pyval) (model : option str)
  : pyval :=
  py_or (py_or (py_or (row_get df_row model)
                      (row_get df_row (Some col_default_model)))
               (row_get df_row (Some col_translation)))
        (PyStr []).

(** What the specification calls an absent or empty column: no cell, [None],
    the empty string, or the NaN of a blank cell. *)
Definition blank (v : pyval) : bool :=
  match v with
  | PyNone | PyNaN => true
  | PyStr s => match s with [] => true | _ => false end
  | PyInt _ => false
  end.

(** The priority list of the specification: the first column of the list
    that is neither absent nor empty, else the empty string. *)
Definition spec_tagged_text (df_row : gmap (list N) pyval) (model : option str)
  : pyval :=
  if negb (blank (row_get df_row model)) then row_get df_row model
  else if negb (blank (row_get df_row (Some col_default_model)))
       then row_get df_row (Some col_default_model)
  else if negb (blank (row_get df_row (Some col_translation)))
       then row_get df_row (Some col_translation)
  else PyStr [].

(** ** Payload of a save *)

(** [{"tag_index": int, "tag_text": str, "decision": ...}] *)
Record item := { tag_index : nat; tag_text : str; decision : option str }.

Record payload := {
  annotator : option str;
  p_model : option str;
  row_index : option Z;
  transcript_no : option Z;
  title : pyval;
  stance : pyval;
  items : list item;
  notes : str;
  saved_at : str;
}.

(** The decisions of the comment of [build_payload_inline]:
    ["agree" | "disagree" | None]. *)
Definition valid_decision (d : option str) : bool :=
  match d with
  | None => true
  | Some s => bool_decide (s = of_string "agree")
              || bool_decide (s = of_string "disagree")
  end.

Section Payload.

(** Python's [int] on a string ([None] where it raises [ValueError]). *)
Context (int_of_str : list N -> option Z).

(** [int(x)], [None] where it raises. *)
Definition py_int (x : pyval) : option Z :=
  match x with
  | PyInt z => Some z
  | PyStr s => int_of_str s
  | PyNone | PyNaN => None
  end.

Definition _safe_int (x : pyval) (default : option Z) : option Z :=
  match py_int x with
  | Some z => Some z
  | None => default
  end.

(** [f"dec_tag_{t['idx']}"] *)
Definition decision_key (idx : nat) : str := of_string "dec_tag_" ++ of_nat idx.

(** The loop [for t in tags] of [build_payload_inline]. *)
Definition build_items (tags : list tag) (form_data : gmap (list N) (list N))
  : list item :=
  (fun t => {| tag_index := t_idx t; tag_text := t_text t;
               decision := form_data !! decision_key (t_idx t) |}) <$> tags.

(** [now] is [datetime.utcnow().isoformat()] at the time of the call. *)
Definition build_payload_inline (username model : option str) (row_idx : nat)
    (transcript : pyval) (df_row : gmap (list N) pyval) (tags : list tag)
    (form_data : gmap (list N) (list N)) (notes_ now : str) : payload :=
  {| annotator := username;
     p_model := model;
     row_index := _safe_int (PyInt (Z.of_nat row_idx)) None;
     transcript_no := _safe_int transcript None;
     title := row_get df_row (Some col_title);
     stance := row_get df_row (Some col_stance);
     items := build_items tags form_data;
     notes := notes_;
     saved_at := now ++ of_string "Z" |}.

End Payload.

(** ** Paths *)

Module Path.

Definition sep : N := 47.

Definition startswith_sep (p : str) : bool :=
  match p with c :: _ => (c =? sep)%N | [] => false end.

Definition endswith_sep (p : str) : bool :=
  match last p with Some c => (c =? sep)%N | None => false end.

(** One turn of the loop of [posixpath.join]. *)
Definition join2 (path b : str) : str :=
  if startswith_sep b then b
  else if match path with [] => true | _ => endswith_sep path end
       then path ++ b
       else path ++ sep :: b.

(** [os.path.join(a, *p)] *)
Definition join (a : str) (p : list str) : str := foldl join2 a p.




End Path.

Definition json_path_for (user_dir model : str) (row_index : nat) : str :=
  Path.join user_dir
    [model; of_string "T" ++ of_nat (row_index + 1) ++ of_string ".json"].

Definition tmp_suffix : str := of_string ".tmp".
Definition corrupt_suffix : str := of_string ".corrupt".

(** ** The file system and the exceptions

    A handler runs against a world: the regular files (path to text), the
    outcomes of the system calls to come, and the log of the file
    operations attempted so far, each with the files as it left them. *)

Inductive exn :=
| JSONDecodeError | OSError | IndexError | TypeError | ValueError
| RecursionError | UnicodeEncodeError.

Inductive result (A : Type) :=
| Ok (a : A)
| Raise (e : exn).
Arguments Ok {A} a.
Arguments Raise {A} e.

(** The outcome of a system call: it succeeds, or it fails (a failing write
    leaves the first [written] characters in the file). *)
Inductive outcome := Succeeds | Fails (written : nat).

Inductive fsop :=
| OpMakedirs (p : str)
| OpExists (p : str)
| OpGetsize (p : str)
| OpOpenRead (p : str)
| OpRead (p : str)
| OpOpenWrite (p : str)
| OpWrite (p : str)
| OpFlush (p : str)
| OpFsync (p : str)
| OpClose (p : str)
| OpReplace (src dst : str).

(** The paths an operation touches. *)
Definition op_paths (op : fsop) : list (list N) :=
  match op with
  | OpMakedirs p | OpExists p | OpGetsize p | OpOpenRead p | OpRead p
  | OpOpenWrite p | OpWrite p | OpFlush p | OpFsync p | OpClose p => [p]
  | OpReplace src dst => [src; dst]
  end.

Record world := {
  files : gmap (list N) (list N);
  plan : list outcome;
  log : list (fsop * gmap (list N) (list N));
}.

Definition M (A : Type) : Type := world -> result A * world.

#[global] Instance M_ret : MRet M := fun A a w => (Ok a, w).

#[global] Instance M_bind : MBind M := fun A B f m w =>
  match m w with
  | (Ok a, w') => f a w'
  | (Raise e, w') => (Raise e, w')
  end.

Definition raise {A} (e : exn) : M A := fun w => (Raise e, w).

(** [try: m  except Exception as e: h e] *)
Definition try_except {A} (m : M A) (h : exn -> M A) : M A := fun w =>
  match m w with
  | (Ok a, w') => (Ok a, w')
  | (Raise e, w') => h e w'
  end.

(** The outcome of the next system call; none planned means success. *)
Definition next_outcome : M outcome := fun w =>
  match plan w with
  | [] => (Ok Succeeds, w)
  | o :: r => (Ok o, {| files := files w; plan := r; log := log w |})
  end.

(** Log [op], leaving the files as [fs]. *)
Definition commit (op : fsop) (fs : gmap (list N) (list N)) : M unit := fun w =>
  (Ok tt, {| files := fs; plan := plan w; log := log w ++ [(op, fs)] |}).

Definition get_files : M (gmap (list N) (list N)) := fun w => (Ok (files w), w).

(** A system call that changes no file. *)
Definition syscall (op : fsop) : M unit :=
  o ← next_outcome; fs ← get_files; commit op fs;;
  match o with Succeeds => mret tt | Fails _ => raise OSError end.

Definition os_makedirs (p : str) : M unit := syscall (OpMakedirs p).

(** [os.path.exists(p)]: never raises. *)
Definition os_path_exists (p : str) : M bool :=
  fs ← get_files; commit (OpExists p) fs;;
  mret (bool_decide (is_Some (fs !! p))).

(** [os.path.getsize(p)]: a system call; it raises [OSError] when it
    fails. *)
Definition os_path_getsize (p : str) : M nat :=
  o ← next_outcome; fs ← get_files; commit (OpGetsize p) fs;;
  match o, fs !! p with
  | Succeeds, Some c => mret (length c)
  | _, _ => raise OSError
  end.

(** [os.replace(src, dst)]: all or nothing. *)
Definition os_replace (src dst : str) : M unit :=
  o ← next_outcome; fs ← get_files;
  match o, fs !! src with
  | Succeeds, Some c => commit (OpReplace src dst) (<[dst := c]> (delete src fs))
  | _, _ => commit (OpReplace src dst) fs;; raise OSError
  end.

Definition open_read (p : str) : M unit :=
  o ← next_outcome; fs ← get_files; commit (OpOpenRead p) fs;;
  match o, fs !! p with
  | Succeeds, Some _ => mret tt
  | _, _ => raise OSError
  end.

(** [f.read()] *)
Definition read (p : str) : M (list N) :=
  o ← next_outcome; fs ← get_files; commit (OpRead p) fs;;
  match o, fs !! p with
  | Succeeds, Some c => mret c
  | _, _ => raise OSError
  end.

(** [open(p, "w")]: creates the file or empties it. *)
Definition open_write (p : str) : M unit :=
  o ← next_outcome; fs ← get_files;
  match o with
  | Succeeds => commit (OpOpenWrite p) (<[p := []]> fs)
  | Fails _ => commit (OpOpenWrite p) fs;; raise OSError
  end.

(** Writing [data] to the file just opened. *)
Definition write (p data : str) : M unit :=
  o ← next_outcome; fs ← get_files;
  match o with
  | Succeeds => commit (OpWrite p) (<[p := data]> fs)
  | Fails k => commit (OpWrite p) (<[p := take k data]> fs);; raise OSError
  end.

Definition flush (p : str) : M unit := syscall (OpFlush p).
Definition os_fsync (p : str) : M unit := syscall (OpFsync p).
Definition close (p : str) : M unit := syscall (OpClose p).

(** Leaving the body of a [with open(...)] block, by its end or by an
    exception: the file is closed; an exception of [close] wins. *)
Definition closing {A} (p : str) (body : M A) : M A := fun w =>
  let '(r, w1) := body w in
  match close p w1 with
  | (Ok _, w2) => (r, w2)
  | (Raise e, w2) => (Raise e, w2)
  end.

(** [with open(...) as f: body] *)
Definition with_open {A} (open : M unit) (p : str) (body : M A) : M A :=
  open;; closing p body.

(** ** Values made ready for JSON *)

Section Jsonable.

(** [F] stands for the floats of Python. *)
Context {F : Type}.

(** The objects that [_to_jsonable] tells apart.  [OStr], [OInt],
    [OFloat] and [OBool] are the instances of [str], [int], [float] and
    [bool]; [ONpFloat64] is a [numpy.float64], which is an instance of
    [float] too, and [ONpFloating] a numpy float of another width, which
    is not.  An object of a class that the function only converts carries
    what the conversion gives: the [isoformat()] of a timestamp or of a
    date, the [int], [float] or [bool] of a numpy scalar, the [str] of
    any other object.  The items of a dictionary and the elements of a set
    come in iteration order. *)
Unset Elimination Schemes.

Inductive pyobj :=
| ONone
| OStr (s : str)
| OInt (z : Z)
| OFloat (x : F)
| OBool (b : bool)
| ONpFloat64 (x : F)
| ONA
| ONaT
| OTimestamp (isoformat : str)
| ODatetime (isoformat : str)
| ONpInteger (z : Z)
| ONpFloating (x : F)
| ONpBool (b : bool)
| ODict (items : list (pyobj * pyobj))
| OList (l : list pyobj)
| OTuple (l : list pyobj)
| OSet (l : list pyobj)
| OOther (text : str).

Set Elimination Schemes.

(** [str(z)] for an integer. *)
Definition str_of_Z (z : Z) : str :=
  of_string (NilZero.string_of_int (Z.to_int z)).

(** [str_other o]: Python's [str] on a float or on a list. *)
Context (str_other : pyobj -> list N).

(** [str(o)] on a value that [_to_jsonable] returned. *)
Definition py_str (o : pyobj) : str :=
  match o with
  | OStr s => s
  | ONone => of_string "None"
  | OBool true => of_string "True"
  | OBool false => of_string "False"
  | OInt z => str_of_Z z
  | _ => str_other o
  end.

Definition is_key (k : str) (o : pyobj) : bool :=
  match o with OStr s => bool_decide (s = k) | _ => false end.

(** [d[k] = v] on the items of a dictionary whose keys are strings: the
    value of an item of that key is replaced where it stands, a new key
    goes to the end. *)
Fixpoint dict_set (d : list (pyobj * pyobj)) (k : str) (v : pyobj)
  : list (pyobj * pyobj) :=
  match d with
  | [] => [(OStr k, v)]
  | (k', v') :: r =>
      if is_key k k' then (k', v) :: r else (k', v') :: dict_set r k v
  end.

(** The dictionary that a comprehension builds from its items. *)
Definition dict_of (items : list (list N * pyobj)) : list (pyobj * pyobj) :=
  foldl (fun d kv => dict_set d kv.1 kv.2) [] items.

Fixpoint _to_jsonable (obj : pyobj) : pyobj :=
  match obj with
  | ONone | OStr _ | OInt _ | OFloat _ | OBool _ | ONpFloat64 _ => obj
  | ONA | ONaT => ONone
  | OTimestamp iso => OStr iso
  | ODatetime iso => OStr iso
  | ONpInteger z => OInt z
  | ONpFloating x => OFloat x
  | ONpBool b => OBool b
  | ODict items =>
      ODict (dict_of
               (map (fun kv => match kv with
                               | (k, v) => (py_str (_to_jsonable k), _to_jsonable v)
                               end) items))
  | OList l | OTuple l | OSet l => OList (map _to_jsonable l)
  | OOther text => OStr text
  end.

(** Values that [json.dump] writes without a [default] hook: [None],
    instances of [str], [int], [float] and [bool], dictionaries with
    string keys, each key once, and lists, all the way down. *)
Fixpoint jsonable (o : pyobj) : Prop :=
  match o with
  | ONone | OStr _ | OInt _ | OFloat _ | OBool _ | ONpFloat64 _ => True
  | ODict items =>
      NoDup (map (fun kv => py_str kv.1) items)
      /\ (fix all (l : list (pyobj * pyobj)) : Prop :=
            match l with
            | [] => True
            | (k, v) :: r =>
                (exists s, k = OStr s) /\ jsonable v /\ all r
            end) items
  | OList l =>
      (fix all (l : list pyobj) : Prop :=
         match l with
         | [] => True
         | x :: r => jsonable x /\ all r
         end) l
  | _ => False
  end.

End Jsonable.

(** ** The payload as an object *)

Section PayloadObject.

(** [nan] is the float NaN. *)
Context {F : Type} (nan : F).

Definition opt_str_obj (o : option str) : @pyobj F :=
  match o with Some s => OStr s | None => ONone end.

Definition opt_int_obj (o : option Z) : @pyobj F :=
  match o with Some z => OInt z | None => ONone end.

(** The cell of a row as an object: pandas hands out the integer of a
    cell as a numpy integer, and NaN is a float. *)
Definition cell_obj (v : pyval) : @pyobj F :=
  match v with
  | PyNone => ONone
  | PyStr s => OStr s
  | PyNaN => OFloat nan
  | PyInt z => ONpInteger z
  end.

Definition item_obj (it : item) : @pyobj F :=
  ODict [ (OStr (of_string "tag_index"), OInt (Z.of_nat (tag_index it)));
          (OStr (of_string "tag_text"), OStr (tag_text it));
          (OStr (of_string "decision"), opt_str_obj (decision it)) ].

(** The dictionary that [build_payload_inline] returns, key by key. *)
Definition payload_obj (p : payload) : @pyobj F :=
  ODict [ (OStr (of_string "annotator"), opt_str_obj (annotator p));
          (OStr (of_string "model"), opt_str_obj (p_model p));
          (OStr (of_string "row_index"), opt_int_obj (row_index p));
          (OStr (of_string "transcript_no"), opt_int_obj (transcript_no p));
          (OStr (of_string "title"), cell_obj (title p));
          (OStr (of_string "stance"), cell_obj (stance p));
          (OStr (of_string "items"), OList (item_obj <$> items p));
          (OStr (of_string "notes"), OStr (notes p));
          (OStr (of_string "saved_at"), OStr (saved_at p)) ].

End PayloadObject.

(** ** Annotation store *)

Section Store.

(** [json_dumps obj]: what [json.dump(obj, f, ensure_ascii=False,
    indent=2)] hands to [f.write], and the exception that stops it, if one
    does (such as [UnicodeEncodeError] on a lone surrogate).
    [json_loads c]: what [json.load] does on a file of text [c]: the value
    it returns or the exception it raises ([JSONDecodeError] on a text
    that is not JSON, [RecursionError] on one nested too deep).
    [empty_dict] is [{}]. *)
Context {F J : Type} (str_other : @pyobj F -> list N)
  (json_dumps : @pyobj F -> list N * option exn)
  (json_loads : list N -> result J) (empty_dict : J).

Definition json_load (p : str) : M J :=
  c ← read p;
  match json_loads c with
  | Ok v => mret v
  | Raise e => raise e
  end.

(** [json.dump(obj, f, ...)] into the file just opened. *)
Definition json_dump (p : str) (obj : @pyobj F) : M unit :=
  write p (json_dumps obj).1;;
  match (json_dumps obj).2 with
  | None => mret tt
  | Some e => raise e
  end.

Definition load_existing_annotations (user_dir model : str) (row_index : nat)
  : M J :=
  let path := json_path_for user_dir model row_index in
  e ← os_path_exists path;
  if negb e then mret empty_dict else
  n ← os_path_getsize path;
  if n =? 0 then mret empty_dict else
  try_except
    (with_open (open_read path) path (json_load path))
    (fun e =>
       match e with
       | JSONDecodeError =>
           try_except (os_replace path (path ++ corrupt_suffix))
                      (fun _ => mret tt);;
           mret empty_dict
       | _ => mret empty_dict
       end).

Definition save_annotations (user_dir model : str) (row_index : nat)
    (payload : @pyobj F) : M unit :=
  let path := json_path_for user_dir model row_index in
  let safe := _to_jsonable str_other payload in
  let tmp := path ++ tmp_suffix in
  with_open (open_write tmp) tmp
    (json_dump tmp safe;; flush tmp;; os_fsync tmp);;
  os_replace tmp path.

End Store.

(** ** The request handlers *)

Definition truthy_opt (o : option str) : bool :=
  match o with Some (_ :: _) => true | _ => false end.

(** A request: its method, the [username] of the session, the query
    arguments, the form fields, and the time at which it is handled. *)
Record request := {
  is_post : bool;
  session_username : option str;
  args : gmap (list N) (list N);
  form : gmap (list N) (list N);
  utcnow : str;
}.

Definition key_model : str := of_string "model".
Definition key_notes : str := of_string "notes".
Definition key_intent : str := of_string "intent".

(** One row of the index page. *)
Record index_row := {
  ir_idx : nat;
  ir_display_no : nat;
  ir_title : pyval;
  ir_stance : pyval;
  ir_decided : nat;
  ir_total : nat;
}.

Section App.

(** The configuration: [ANNOTATIONS_BASE], [MODELS] and the rows of [DF].
    [existing_view] reads the choices and the notes off a loaded record,
    [count_decided] counts its decided items; both may raise on a record of
    another shape. *)
Context {F J V : Type} (nan : F) (str_other : @pyobj F -> list N)
  (json_dumps : @pyobj F -> list N * option exn)
  (json_loads : list N -> result J) (empty_dict : J)
  (existing_view : J -> result V) (count_decided : J -> result nat)
  (int_of_str : list N -> option Z)
  (ANNOTATIONS_BASE : list N) (MODELS : list (list N))
  (DF : list (gmap (list N) pyval)).

(** The context handed to the template of the annotation page. *)
Record annotate_ctx := {
  c_username : option str;
  c_models : list (list N);
  c_model : option str;
  c_row_idx : nat;
  c_display_no : nat;
  c_title : pyval;
  c_stance : pyval;
  c_stream : list segment;
  c_view : V;
  c_has_prev : bool;
  c_has_next : bool;
  c_total_rows : nat;
}.

Inductive response :=
| RedirectLogin
| RedirectIndex (model : option str)
| RedirectAnnotate (row_idx : nat) (model : option str)
| RenderAnnotate (ctx : annotate_ctx)
| RenderIndex (model : option str) (rows : list index_row).

Definition lift {A} (r : result A) : M A := fun w => (r, w).

(** The loop [for m in models: os.makedirs(...)]. *)
Fixpoint makedirs_each (user_dir : str) (models : list (list N)) : M unit :=
  match models with
  | [] => mret tt
  | m :: r => os_makedirs (Path.join user_dir [m]);; makedirs_each user_dir r
  end.

Definition ensure_user_dirs (base_dir username : str) (models : list (list N))
  : M (list N) :=
  let user_dir := Path.join base_dir [sanitize_username username] in
  os_makedirs user_dir;;
  makedirs_each user_dir models;;
  mret user_dir.

Definition current_user_dir (req : request) : M (list N) :=
  match session_username req with
  | Some ((_ :: _) as username) =>
      ensure_user_dirs ANNOTATIONS_BASE username MODELS
  | _ => mret []
  end.

(** [MODELS[0] if MODELS else None] *)
Definition first_model : option str := head MODELS.

(** The model of [annotate]: the one asked for, in the query or in the
    form, when it is a known one, else the first known model. *)
Definition annotate_model (req : request) : option str :=
  let model :=
    opt_or (opt_or (args req !! key_model) (form req !! key_model))
           first_model in
  match model with
  | Some m => if bool_decide (m ∈ MODELS) then Some m else first_model
  | None => first_model
  end.

(** The redirection that ends a save. *)
Definition after_save (req : request) (row_idx : nat) (model : option str)
  : response :=
  let intent := form req !! key_intent in
  if bool_decide (intent = Some (of_string "prev")) && (0 <? row_idx)
  then RedirectAnnotate (row_idx - 1) model
  else if bool_decide (intent = Some (of_string "next"))
          && (Z.of_nat row_idx <? Z.of_nat (length DF) - 1)%Z
  then RedirectAnnotate (row_idx + 1) model
  else if bool_decide (intent = Some (of_string "index"))
  then RedirectIndex model
  else if bool_decide (intent = Some (of_string "switch_model"))
  then RedirectAnnotate row_idx (opt_or (form req !! key_model) model)
  else RedirectAnnotate row_idx model.

(** [save_annotations] and [load_existing_annotations] as the handlers
    call them: with no model at all ([MODELS] is empty), [os.path.join]
    raises [TypeError] before any file is touched. *)
Definition save_for (user_dir : str) (model : option str) (row_idx : nat)
    (p : @pyobj F) : M unit :=
  match model with
  | Some m => save_annotations str_other json_dumps user_dir m row_idx p
  | None => raise TypeError
  end.

Definition load_for (user_dir : str) (model : option str) (row_idx : nat)
  : M J :=
  match model with
  | Some m => load_existing_annotations json_loads empty_dict user_dir m row_idx
  | None => raise TypeError
  end.

Definition annotate (row_idx : nat) (req : request) : M response :=
  if negb (truthy_opt (session_username req)) then mret RedirectLogin else
  let model := annotate_model req in
  match DF !! row_idx with
  | None => raise IndexError
  | Some df_row =>
      let tagged_text := tagged_text_of df_row model in
      if is_post req then
        let tags := extract_tags tagged_text in
        let notes := default [] (form req !! key_notes) in
        let payload :=
          build_payload_inline int_of_str (session_username req) model row_idx
            (default (PyInt (Z.of_nat row_idx + 1)) (df_row !! col_transcript_no))
            df_row tags (form req) notes (utcnow req) in
        user_dir ← current_user_dir req;
        save_for user_dir model row_idx (payload_obj nan payload);;
        mret (after_save req row_idx model)
      else
        let stream := build_inline_stream tagged_text in
        user_dir ← current_user_dir req;
        existing ← load_for user_dir model row_idx;
        view ← lift (existing_view existing);
        mret (RenderAnnotate
                {| c_username := session_username req;
                   c_models := MODELS;
                   c_model := model;
                   c_row_idx := row_idx;
                   c_display_no := row_idx + 1;
                   c_title := default (PyStr []) (df_row !! col_title);
                   c_stance := default (PyStr []) (df_row !! col_stance);
                   c_stream := stream;
                   c_view := view;
                   c_has_prev := 0 <? row_idx;
                   c_has_next :=
                     (Z.of_nat row_idx <? Z.of_nat (length DF) - 1)%Z;
                   c_total_rows := length DF |})
  end.

(** The model of [index]: the one asked for in the query, whatever it is,
    else the first known model. *)
Definition index_model (req : request) : option str :=
  opt_or (args req !! key_model) first_model.

(** One turn of the loop [for i in range(len(DF))] of [index]. *)
Definition index_row_of (user_dir : str) (model : option str) (i : nat)
    (df_row : gmap (list N) pyval) : M index_row :=
  existing ←
    (match model return M J with
     | Some ((_ :: _) as m) =>
         e ← os_path_exists (json_path_for user_dir m i);
         if e : bool
         then load_existing_annotations json_loads empty_dict user_dir m i
         else mret empty_dict
     | _ => mret empty_dict
     end);
  let tagged_text := tagged_text_of df_row model in
  let total := count_tags_in_text tagged_text in
  decided ← lift (count_decided existing);
  mret {| ir_idx := i; ir_display_no := i + 1;
          ir_title := default (PyStr []) (df_row !! col_title);
          ir_stance := default (PyStr []) (df_row !! col_stance);
          ir_decided := decided; ir_total := total |}.

Fixpoint index_rows (user_dir : str) (model : option str) (i : nat)
    (rows : list (gmap (list N) pyval)) : M (list index_row) :=
  match rows with
  | [] => mret []
  | df_row :: rest =>
      r ← index_row_of user_dir model i df_row;
      rs ← index_rows user_dir model (S i) rest;
      mret (r :: rs)
  end.

Definition index (req : request) : M response :=
  if negb (truthy_opt (session_username req)) then mret RedirectLogin else
  let model := index_model req in
  user_dir ← current_user_dir req;
  rows ← index_rows user_dir model 0 DF;
  mret (RenderIndex model rows).

End App.

(** *** Lists of matches laid out along a text

    [chain text pos ms]: the matches [ms] lie in [text] from offset [pos]
    on, one after the other, and each one spans an opening bracket, its
    group 1 made of non-brackets, and a closing bracket. *)
Fixpoint chain (text : str) (pos : nat) (ms : list rmatch) : Prop :=
  match ms with
  | [] => True
  | m :: r =>
      pos <= m_start m
      /\ m_end m = m_start m + (length (m_group1 m) + 2)
      /\ drop (m_start m) text
         = lbracket :: m_group1 m ++ rbracket :: drop (m_end m) text
      /\ m_group1 m <> []
      /\ forallb nonbracket (m_group1 m) = true
      /\ chain text (m_end m) r
  end.

(** The stream of the specification: the gaps between consecutive tags,
    each one left out when it is empty, around the tag segments. *)
Definition gap (text : str) (a b : nat) : list segment :=
  match slice text a b with
  | [] => []
  | c => [SegText c]
  end.

Fixpoint spec_segments (text : str) (last : nat) (tags : list tag)
  : list segment :=
  match tags with
  | [] => gap text last (length text)
  | t :: r =>
      gap text last (t_start t)
        ++ SegTag (t_text t) (t_idx t) :: spec_segments text (t_end t) r
  end.

(** The loop of [build_inline_stream] from the cursor [last] on, with the
    trailing text that follows it, as a recursion over the tags left. *)
Fixpoint code_segments (text : str) (last : nat) (tags : list tag)
  : list segment :=
  match tags with
  | [] => if last <? length text then [SegText (drop last text)] else []
  | t :: r =>
      (if last <? t_start t
       then [SegText (slice text last (t_start t))] else [])
        ++ SegTag (t_text t) (t_idx t) :: code_segments text (t_end t) r
  end.

(** *** File operations of a computation

    [touches ok m]: whatever the world, [m] only adds to the log, and each
    operation it attempts satisfies [ok]. *)
Definition touches {A} (ok : fsop -> Prop) (m : M A) : Prop :=
  forall w, exists entries,
    log (m w).2 = log w ++ entries /\ Forall (fun e => ok e.1) entries.

(** The operation touches paths of [ps] only. *)
Definition on_paths (ps : list (list N)) (op : fsop) : Prop :=
  forall p, p ∈ op_paths op -> p ∈ ps.

(** The paths of the store for one record: the file, its temporary file
    and its quarantined copy. *)
Definition store_paths (user_dir model : str) (row_index : nat)
  : list (list N) :=
  let path := json_path_for user_dir model row_index in
  [path; path ++ tmp_suffix; path ++ corrupt_suffix].

(** What [annotate] may do to the file system for a user and a row:
    create the directories of the user, one per known model, and work on
    the record of a known model and of a row of the data frame. *)
Definition annotate_ok (MODELS : list (list N)) (rows : nat)
    (user_dir : str) (row_idx : nat) (op : fsop) : Prop :=
  op = OpMakedirs user_dir
  \/ (exists m, m ∈ MODELS /\ op = OpMakedirs (Path.join user_dir [m]))
  \/ (row_idx < rows
      /\ exists m, m ∈ MODELS /\ on_paths (store_paths user_dir m row_idx) op).

(** [returns Q m]: a value that [m] returns satisfies [Q]. *)
Definition returns {A} (Q : A -> Prop) (m : M A) : Prop :=
  forall w a, (m w).1 = Ok a -> Q a.

(** The directory of the user of a request: what [current_user_dir]
    returns for it. *)
Definition session_user_dir (ANNOTATIONS_BASE : str) (req : request) : str :=
  match session_username req with
  | Some ((_ :: _) as username) =>
      Path.join ANNOTATIONS_BASE [sanitize_username username]
  | _ => []
  end.

(** *** A sample configuration

    Two known models, one row, an empty file system on which every system
    call succeeds.  [sample_loads] stands for [json.load]: it takes a text
    that starts with a brace as the JSON of itself and rejects any other;
    [sample_dumps] writes the notes of a payload between braces.
    [deep_loads] does as [sample_loads] but, as [json.load] does, gives up
    with [RecursionError] on a text that opens more than a thousand
    brackets in a row. *)
Definition sample_models : list (list N) :=
  [col_default_model; of_string "gpt5_layer2_annotations"].

Definition sample_row : gmap (list N) pyval :=
  {[ col_default_model := PyStr (of_string "Hi [Greeting] there") ]}.

Definition sample_df : list (gmap (list N) pyval) := [sample_row].

Definition sample_base : str := of_string "/srv/annotations".

Definition sample_loads (c : list N) : result (list N) :=
  match c with
  | 123%N :: _ => Ok c
  | _ => Raise JSONDecodeError
  end.

Definition sample_dumps (o : @pyobj unit) : list N * option exn :=
  match o with
  | ODict kvs =>
      (of_string "{"
         ++ concat ((fun kv : @pyobj unit * @pyobj unit =>
                       if is_key key_notes kv.1
                       then py_str (fun _ => []) kv.2 else []) <$> kvs)
         ++ of_string "}", None)
  | _ => (of_string "{}", None)
  end.

Fixpoint leading_brackets (c : list N) : nat :=
  match c with
  | 91%N :: r => S (leading_brackets r)
  | _ => 0
  end.

Definition deep_loads (c : list N) : result (list N) :=
  if 1000 <? leading_brackets c then Raise RecursionError else sample_loads c.

Definition sample_world : world := {| files := ∅; plan := []; log := [] |}.

(** A request of the user [ann] that names [model] in its query. *)
Definition sample_request (post : bool) (model : str) : request :=
  {| is_post := post;
     session_username := Some (of_string "ann");
     args := {[ key_model := model ]};
     form := {[ of_string "dec_tag_1" := of_string "agree";
                key_notes := of_string "ok" ]};
     utcnow := of_string "2024-01-01T00:00:00" |}.

Definition sample_annotate (row_idx : nat) (req : request)
  : M (@response unit) :=
  annotate tt (fun _ => []) sample_dumps sample_loads [] (fun _ => Ok tt)
    (fun _ => None)
    sample_base sample_models sample_df row_idx req.

Definition sample_index (req : request) : M (@response unit) :=
  index sample_loads [] (fun _ => Ok 0) sample_base sample_models sample_df req.

(** ** The data frame and the known models *)

(** A data frame: its column labels, in order, and its rows.  The labels
    are strings, as the header of the sheet gives them. *)
Record dataframe := {
  df_columns : list (list N);
  df_rows : list (gmap (list N) pyval);
}.

Definition default_cols : list (list N) :=
  [ of_string "Transcript No"; of_string "URL"; of_string "Original Text";
    of_string "English Translation";
    of_string "gpt4o_layer2_annotations"; of_string "gpt4_layer2_annotations";
    of_string "gpt41_layer2_annotations"; of_string "gpt5_layer2_annotations" ].

(** One turn of the loop of [load_dataset]:
    [if c not in df.columns: df[c] = None]. *)
Definition ensure_column (df : dataframe) (c : str) : dataframe :=
  if bool_decide (c ∈ df_columns df) then df
  else {| df_columns := df_columns df ++ [c];
          df_rows := (fun r => <[c := PyNone]> r) <$> df_rows df |}.

(** [load_dataset], from the frame that [pd.read_excel(excel_path)] gives. *)
Definition load_dataset (sheet : dataframe) : dataframe :=
  foldl ensure_column sheet default_cols.

(** [s.endswith(suffix)] *)
Definition endswith (s suffix : str) : bool :=
  (length suffix <=? length s)
  && bool_decide (drop (length s - length suffix) s = suffix).

Definition model_suffix : str := of_string "_layer2_annotations".

Definition model_order : list (list N) :=
  [ of_string "gpt4o_layer2_annotations"; of_string "gpt4_layer2_annotations";
    of_string "gpt41_layer2_annotations"; of_string "gpt5_layer2_annotations" ].

(** The order of Python on strings: code point by code point, a proper
    prefix first. *)
Fixpoint str_leb (a b : str) : bool :=
  match a, b with
  | [], _ => true
  | _ :: _, [] => false
  | x :: a', y :: b' => (x <? y)%N || ((x =? y)%N && str_leb a' b')
  end.

Definition str_le (a b : list N) : Prop := str_leb a b = true.

#[global] Instance str_le_dec a b : Decision (str_le a b).
Proof. unfold str_le. apply _. Defined.

(** [sorted(l)] on a list of strings. *)
Definition sorted (l : list (list N)) : list (list N) := merge_sort str_le l.

Definition discover_models (df : dataframe) : list (list N) :=
  let candidates :=
    filter (fun c => endswith c model_suffix = true) (df_columns df) in
  let ordered := filter (fun c => c ∈ candidates) model_order in
  let remaining := filter (fun c => c ∉ ordered) candidates in
  ordered ++ sorted remaining.

(** ** The directory of a record *)

(** What [os.path.join] puts before the file name of a record. *)
Definition record_dir (d m : list N) : list N :=
  let x := Path.join2 d m in
  if match x with [] => true | _ => Path.endswith_sep x end
  then x else x ++ [Path.sep].

(** ** Signing in *)

Definition key_name : str := of_string "name".

(** What [login] answers: the sign-in page, with or without the message
    that asks for a name, or the redirection to the index. *)
Inductive login_response :=
| LoginPage (asks_name : bool)
| LoginToIndex.

Section Login.
Context (ANNOTATIONS_BASE : list N) (MODELS : list (list N)).

(** [login]: the answer and the [username] of the session afterwards. *)
Definition login (req : request) : M (login_response * option (list N)) :=
  if is_post req then
    let name := strip (default [] (form req !! key_name)) in
    match name with
    | [] => mret (LoginPage true, session_username req)
    | _ =>
        let username := sanitize_username name in
        ensure_user_dirs ANNOTATIONS_BASE username MODELS;;
        mret (LoginToIndex, Some username)
    end
  else mret (LoginPage false, session_username req).

End Login.

(** ** Views of requests and of file operations *)

(** The request [req] under a session whose username is [s]. *)
Definition with_session (req : request) (s : option (list N)) : request :=
  {| is_post := is_post req; session_username := s; args := args req;
     form := form req; utcnow := utcnow req |}.

(** The operations that create a file or put text into one. *)
Definition is_write_op (op : fsop) : bool :=
  match op with
  | OpOpenWrite _ | OpWrite _ | OpFlush _ | OpFsync _ => true
  | _ => false
  end.

(** * Properties *)

(** ** Whitespace trimming *)

Section Strip.
Implicit Types s : list N.

Lemma forallb_rev (f : N -> bool) s : forallb f (rev s) = forallb f s.
Proof.
  induction s as [|c r IH]; simpl; [done|].
  rewrite forallb_app, IH. simpl. rewrite andb_true_r. apply andb_comm.
Qed.

Lemma lstrip_nil s : lstrip s = [] <-> forallb isspace s = true.
Proof.
  induction s as [|c r IH]; simpl; [done|].
  destruct (isspace c); simpl; [exact IH|]. split; discriminate.
Qed.

Lemma lstrip_head s c r : lstrip s = c :: r -> isspace c = false.
Proof.
  induction s as [|d t IH]; simpl; [discriminate|].
  destruct (isspace d) eqn:E; [exact IH|]. intros [= <- _]. exact E.
Qed.

Lemma lstrip_fixed s :
  match s with [] => True | c :: _ => isspace c = false end -> lstrip s = s.
Proof. destruct s as [|c r]; simpl; [done|]. by intros ->. Qed.

Lemma strip_nil s : strip s = [] -> forallb isspace s = true.
Proof.
  unfold strip, rstrip. intros H.
  apply (f_equal (@rev N)) in H. rewrite rev_involutive in H. simpl in H.
  apply lstrip_nil in H. rewrite forallb_rev in H.
  destruct (lstrip s) as [|c r] eqn:E; [by apply lstrip_nil|].
  apply lstrip_head in E. simpl in H. rewrite E in H. discriminate.
Qed.

Lemma strip_all_space s : forallb isspace s = true -> strip s = [].
Proof.
  intros H. apply lstrip_nil in H. unfold strip, rstrip. by rewrite H.
Qed.

Lemma strip_no_space s :
  forallb (fun c => negb (isspace c)) s = true -> strip s = s.
Proof.
  intros H. unfold strip, rstrip.
  assert (forall t, forallb (fun c => negb (isspace c)) t = true -> lstrip t = t)
    as L.
  { intros [|c r]; simpl; [done|]. intros [Hc _]%andb_prop.
    by destruct (isspace c). }
  rewrite (L s H), L, rev_involutive; [done|]. by rewrite forallb_rev.
Qed.

Lemma lstrip_suffix s : exists p, s = p ++ lstrip s.
Proof.
  induction s as [|c r [p IH]]; [by exists []|]. simpl.
  destruct (isspace c); [|by exists []]. exists (c :: p). simpl. by f_equal.
Qed.

Lemma rstrip_prefix s : exists q, s = rstrip s ++ q.
Proof.
  unfold rstrip. destruct (lstrip_suffix (rev s)) as [p E].
  exists (rev p). rewrite <- rev_app_distr, <- E. by rewrite rev_involutive.
Qed.

(** Trimming never makes a text longer. *)
Lemma strip_length s : length (strip s) <= length s.
Proof.
  unfold strip. destruct (lstrip_suffix s) as [p Hp].
  destruct (rstrip_prefix (lstrip s)) as [q Hq].
  rewrite Hp at 2. rewrite Hq at 2. rewrite !length_app. lia.
Qed.

End Strip.

(** ** The tag pattern *)

Section Pattern.
Implicit Types s text g : list N.

Lemma span_nonbracket_spec s run rest :
  span_nonbracket s = (run, rest) ->
  s = run ++ rest /\ forallb nonbracket run = true
  /\ match rest with [] => True | c :: _ => nonbracket c = false end.
Proof.
  revert run rest. induction s as [|c r IH]; simpl; intros run rest.
  - by intros [= <- <-].
  - destruct (nonbracket c) eqn:E.
    + destruct (span_nonbracket r) as [run' rest'].
      intros [= <- <-]. destruct (IH _ _ eq_refl) as (-> & H1 & H2).
      simpl. by rewrite E, H1.
    + by intros [= <- <-].
Qed.

Lemma span_nonbracket_app g c rest :
  forallb nonbracket g = true -> nonbracket c = false ->
  span_nonbracket (g ++ c :: rest) = (g, c :: rest).
Proof.
  intros Hg Hc. induction g as [|d g IH]; simpl in *.
  - by rewrite Hc.
  - apply andb_prop in Hg as [-> Hg]. by rewrite (IH Hg).
Qed.

Lemma rbracket_not_nonbracket : nonbracket rbracket = false.
Proof. reflexivity. Qed.

Lemma lbracket_not_nonbracket : nonbracket lbracket = false.
Proof. reflexivity. Qed.

Lemma match_here_Some s g rest :
  match_here s = Some (g, rest) <->
  s = lbracket :: g ++ rbracket :: rest /\ g <> []
  /\ forallb nonbracket g = true.
Proof.
  split.
  - destruct s as [|c r]; simpl; [discriminate|].
    destruct (N.eqb_spec c lbracket) as [->|]; [|discriminate].
    destruct (span_nonbracket r) as [run rest'] eqn:E.
    apply span_nonbracket_spec in E as (-> & Hrun & _).
    destruct run as [|d run]; [discriminate|].
    destruct rest' as [|c' rest']; [discriminate|].
    destruct (N.eqb_spec c' rbracket) as [->|]; [|discriminate].
    by intros [= <- <-].
  - intros (-> & Hne & Hg). simpl.
    rewrite (span_nonbracket_app _ _ _ Hg rbracket_not_nonbracket).
    destruct g; [done|]. reflexivity.
Qed.

(** A text of [n] characters needs no more than [n] units of fuel. *)
Lemma finditer_from_fuel fuel pos s :
  length s <= fuel -> finditer_from fuel pos s = finditer_from (length s) pos s.
Proof.
  revert pos s. induction (lt_wf fuel) as [fuel _ IH]. intros pos s Hle.
  destruct s as [|c r]; [by destruct fuel|].
  destruct fuel as [|fuel]; [simpl in Hle; lia|].
  cbn [length finditer_from].
  destruct (match_here (c :: r)) as [[g rest]|] eqn:E.
  - apply match_here_Some in E as (E & _ & _). injection E as _ ->.
    f_equal. rewrite (IH fuel), (IH (length (g ++ rbracket :: rest)));
      rewrite ?length_app; simpl in *; rewrite ?length_app in *; simpl in *;
      try lia. done.
  - apply IH; simpl in *; lia.
Qed.

Lemma chain_weaken text pos pos' ms :
  pos' <= pos -> chain text pos ms -> chain text pos' ms.
Proof. destruct ms; simpl; [done|]. intros ? (? & ?). split; [lia|done]. Qed.

(** The matches of [finditer] are laid out along the text. *)
Lemma finditer_from_chain text fuel pos :
  chain text pos (finditer_from fuel pos (drop pos text)).
Proof.
  revert pos. induction fuel as [|fuel IH]; intros pos; [done|].
  cbn [finditer_from].
  destruct (drop pos text) as [|c r] eqn:D; [done|].
  destruct (match_here (c :: r)) as [[g rest]|] eqn:E.
  - apply match_here_Some in E as (E & Hne & Hg).
    assert (drop (pos + (length g + 2)) text = rest) as Hrest.
    { rewrite <- drop_drop, D, E.
      replace (length g + 2) with (S (length g + 1)) by lia. simpl.
      by rewrite drop_app_add. }
    cbn [chain m_start m_end m_group1]. rewrite D, Hrest.
    split_and!; try done. rewrite <- Hrest. apply IH.
  - assert (drop (S pos) text = r) as <-.
    { replace (S pos) with (pos + 1) by lia. by rewrite <- drop_drop, D. }
    eapply chain_weaken; [|apply IH]. lia.
Qed.

End Pattern.

(** ** Bracket pairs and matches *)

Section Pairs.
Implicit Types s text g : list N.

Lemma nonbracket_lbracket c : nonbracket c = true -> c <> lbracket.
Proof. intros H ->. discriminate. Qed.

Lemma nonbracket_rbracket c : nonbracket c = true -> c <> rbracket.
Proof. intros H ->. discriminate. Qed.

(** A match at offset [pos] spans a bracket pair. *)
Lemma match_pair text pos g rest :
  drop pos text = lbracket :: g ++ rbracket :: rest ->
  g <> [] -> forallb nonbracket g = true ->
  is_pair text pos (pos + (length g + 2))
  /\ g = slice text (S pos) (pos + (length g + 2) - 1).
Proof.
  intros D Hne Hg.
  assert (forall k, text !! (pos + k) = (lbracket :: g ++ rbracket :: rest) !! k)
    as L by (intros k; by rewrite <- lookup_drop, D).
  split; [split_and!|].
  - by rewrite <- (Nat.add_0_r pos), L.
  - destruct g; [done|]. simpl. lia.
  - replace (pos + (length g + 2) - 1) with (pos + S (length g)) by lia.
    rewrite L. simpl. by rewrite lookup_app_r, Nat.sub_diag.
  - intros k Hk. replace k with (pos + S (k - pos - 1)) by lia.
    rewrite L. simpl.
    assert (k - pos - 1 < length g) as Hlt by lia.
    rewrite lookup_app_l by done.
    destruct (lookup_lt_is_Some_2 g _ Hlt) as [c Hc]. exists c. split; [done|].
    rewrite forallb_forall in Hg. apply Hg.
    apply list_elem_of_In, list_elem_of_lookup. eauto.
  - unfold slice. replace (S pos) with (pos + 1) by lia.
    rewrite <- drop_drop, D. simpl. rewrite drop_0.
    replace (pos + (length g + 2) - 1 - (pos + 1)) with (length g) by lia.
    by rewrite take_app_length.
Qed.

(** A bracket pair at offset [i] is where the pattern matches. *)
Lemma pair_match text i j :
  is_pair text i j ->
  drop i text = lbracket :: slice text (S i) (j - 1) ++ rbracket :: drop j text
  /\ slice text (S i) (j - 1) <> []
  /\ forallb nonbracket (slice text (S i) (j - 1)) = true
  /\ length (slice text (S i) (j - 1)) + 2 = j - i.
Proof.
  intros (Hl & Hlt & Hr & Hin).
  assert (j - 1 < length text) as Hj by (by eapply lookup_lt_Some).
  assert (length (slice text (S i) (j - 1)) = j - 1 - S i) as Hlen.
  { unfold slice. rewrite length_take, length_drop. lia. }
  split_and!.
  - rewrite (drop_S _ _ _ Hl). f_equal. unfold slice.
    rewrite <- (take_drop (j - 1 - S i) (drop (S i) text)) at 1. f_equal.
    rewrite drop_drop. replace (S i + (j - 1 - S i)) with (j - 1) by lia.
    rewrite (drop_S _ _ _ Hr). do 2 f_equal. lia.
  - intros E. rewrite E in Hlen. simpl in Hlen. lia.
  - rewrite forallb_forall. intros c [k Hk]%list_elem_of_In%list_elem_of_lookup.
    assert (k < j - 1 - S i) as Hk'.
    { rewrite <- Hlen. by eapply lookup_lt_Some. }
    unfold slice in Hk. rewrite lookup_take_lt, lookup_drop in Hk by done.
    destruct (Hin (S i + k)) as (c' & Hc' & Hnb); [lia|]. congruence.
  - lia.
Qed.

(** Two bracket pairs are the same or lie apart. *)
Lemma pair_disjoint text i j i' j' :
  is_pair text i j -> is_pair text i' j' -> i <= i' ->
  (i = i' /\ j = j') \/ j <= i'.
Proof.
  intros (Hl & Hlt & Hr & Hin) (Hl' & Hlt' & Hr' & Hin') Hle.
  destruct (decide (i = i')) as [<-|Hne].
  - left. split; [done|].
    destruct (Nat.lt_trichotomy (j - 1) (j' - 1)) as [H|[H|H]]; [|lia|].
    + destruct (Hin' (j - 1)) as (c & Hc & Hnb); [lia|].
      rewrite Hr in Hc. injection Hc as <-. discriminate.
    + destruct (Hin (j' - 1)) as (c & Hc & Hnb); [lia|].
      rewrite Hr' in Hc. injection Hc as <-. discriminate.
  - right. destruct (decide (j <= i')) as [|Hgt]; [done|]. exfalso.
    destruct (decide (i' = j - 1)) as [->|Hne'].
    + rewrite Hr in Hl'. discriminate.
    + destruct (Hin i') as (c & Hc & Hnb); [lia|].
      rewrite Hl' in Hc. injection Hc as <-. discriminate.
Qed.

Lemma is_pair_bounds text i j : is_pair text i j -> i < j /\ j <= length text.
Proof.
  intros (Hl & Hlt & Hr & _). apply lookup_lt_Some in Hr. lia.
Qed.

Lemma is_pairb_spec text i j : is_pairb text i j = true <-> is_pair text i j.
Proof.
  split.
  - unfold is_pairb. intros H.
    apply andb_prop in H as [H Hall]. apply andb_prop in H as [H Hr].
    apply andb_prop in H as [Hl Hlt].
    apply bool_decide_eq_true in Hl, Hr. apply Nat.ltb_lt in Hlt.
    split_and!; try done. intros k Hk.
    assert (j - 1 < length text) as Hj by (by eapply lookup_lt_Some).
    destruct (lookup_lt_is_Some_2 text k) as [c Hc]; [lia|].
    exists c. split; [done|]. rewrite forallb_forall in Hall. apply Hall.
    apply list_elem_of_In, list_elem_of_lookup. exists (k - S i).
    unfold slice. rewrite lookup_take_lt, lookup_drop by lia.
    rewrite <- Hc. f_equal. lia.
  - intros H. pose proof (pair_match _ _ _ H) as (_ & _ & Hall & _).
    destruct H as (Hl & Hlt & Hr & _). unfold is_pairb.
    rewrite Hall, !bool_decide_eq_true_2 by done.
    by apply Nat.ltb_lt in Hlt as ->.
Qed.

(** Every match of a chain spans a bracket pair and holds its interior. *)
Lemma chain_elem text pos ms m :
  chain text pos ms -> m ∈ ms ->
  pos <= m_start m /\ is_pair text (m_start m) (m_end m)
  /\ m_group1 m = slice text (S (m_start m)) (m_end m - 1).
Proof.
  revert pos. induction ms as [|m' r IH]; intros pos; [by intros _ ?%elem_of_nil|].
  intros (Hpos & He & D & Hne & Hg & Hr) [->|Hin]%elem_of_cons.
  - destruct (match_pair _ _ _ _ D Hne Hg) as [Hp Hs].
    rewrite <- He in Hp, Hs. done.
  - destruct (IH _ Hr Hin) as (Hle & Hp & Hs). split_and!; try done. lia.
Qed.

(** The matches of a chain come in increasing order and do not overlap. *)
Lemma chain_sorted text pos ms k k' m m' :
  chain text pos ms -> k < k' -> ms !! k = Some m -> ms !! k' = Some m' ->
  m_end m <= m_start m'.
Proof.
  revert pos k k'. induction ms as [|m0 r IH]; intros pos k k' Hc Hlt; [done|].
  destruct Hc as (_ & _ & _ & _ & _ & Hr).
  destruct k' as [|k']; [lia|]. destruct k as [|k]; simpl.
  - intros [= ->] Hm'.
    by destruct (chain_elem _ _ _ m' Hr) as (? & _);
      [apply list_elem_of_lookup; eauto|].
  - apply (IH _ _ _ Hr). lia.
Qed.

(** Every bracket pair from the current position on is found. *)
Lemma finditer_from_complete text i j fuel pos :
  is_pair text i j -> pos <= i -> length text - pos <= fuel ->
  exists m, m ∈ finditer_from fuel pos (drop pos text)
            /\ m_start m = i /\ m_end m = j.
Proof.
  intros Hp. revert pos. induction fuel as [|fuel IH]; intros pos Hle Hfuel.
  { apply is_pair_bounds in Hp. lia. }
  cbn [finditer_from].
  destruct (drop pos text) as [|c r] eqn:D.
  { apply drop_nil_inv in D. apply is_pair_bounds in Hp. lia. }
  assert (drop (S pos) text = r) as Hr.
  { replace (S pos) with (pos + 1) by lia. by rewrite <- drop_drop, D. }
  destruct (match_here (c :: r)) as [[g rest]|] eqn:E.
  - apply match_here_Some in E as (E & Hne & Hg). rewrite E in D.
    destruct (match_pair _ _ _ _ D Hne Hg) as [Hq _].
    assert (rest = drop (pos + (length g + 2)) text) as ->.
    { rewrite <- drop_drop, D.
      replace (length g + 2) with (S (length g + 1)) by lia. simpl.
      by rewrite drop_app_add. }
    destruct (pair_disjoint _ _ _ _ _ Hq Hp Hle) as [[<- <-]|Hlt].
    + eexists. split; [apply list_elem_of_here|done].
    + destruct (IH (pos + (length g + 2))) as (m & Hm & ?); [done|lia|].
      exists m. split; [by apply list_elem_of_further|done].
  - destruct (decide (pos = i)) as [->|Hne].
    + exfalso. destruct (pair_match _ _ _ Hp) as (D' & Hne & Hg & _).
      rewrite D in D'. rewrite D' in E.
      assert (match_here
                (lbracket :: slice text (S i) (j - 1) ++ rbracket :: drop j text)
              = Some (slice text (S i) (j - 1), drop j text)) as E'
        by (by apply match_here_Some).
      congruence.
    + rewrite <- Hr. apply IH; lia.
Qed.

Lemma finditer_chain text : chain text 0 (finditer text).
Proof.
  pose proof (finditer_from_chain text (length text) 0) as H.
  by rewrite drop_0 in H.
Qed.

(** [finditer] finds exactly the bracket pairs of the text. *)
Lemma finditer_pairs text i j :
  (exists m, m ∈ finditer text /\ m_start m = i /\ m_end m = j)
  <-> is_pair text i j.
Proof.
  split.
  - intros (m & Hm & <- & <-).
    by destruct (chain_elem _ _ _ _ (finditer_chain text) Hm) as (_ & ? & _).
  - intros Hp.
    destruct (finditer_from_complete text i j (length text) 0) as (m & Hm & ?);
      [done|lia|lia|].
    rewrite drop_0 in Hm. by exists m.
Qed.

End Pairs.

(** ** Tags and streams *)

Section Stream.
Implicit Types s text : list N.

Lemma length_tags_of_matches i ms : length (tags_of_matches i ms) = length ms.
Proof. revert i. induction ms as [|m r IH]; intros i; simpl; [done|]. by rewrite IH. Qed.

Lemma tags_of_matches_lookup i ms k :
  tags_of_matches i ms !! k
  = (fun m => {| t_idx := i + k; t_text := strip (m_group1 m);
                 t_start := m_start m; t_end := m_end m |}) <$> ms !! k.
Proof.
  revert i k. induction ms as [|m r IH]; intros i k; [done|].
  destruct k as [|k]; simpl.
  - by rewrite Nat.add_0_r.
  - rewrite IH. by replace (S i + k) with (i + S k) by lia.
Qed.

Lemma isspace_lbracket : isspace lbracket = false.
Proof. reflexivity. Qed.

(** A text of whitespace only holds no bracket pair, so the early return of
    [extract_tags] agrees with the scan. *)
Lemma finditer_blank s : strip s = [] -> finditer s = [].
Proof.
  intros H%strip_nil. destruct (finditer s) as [|m r] eqn:E; [done|].
  destruct (proj1 (finditer_pairs s (m_start m) (m_end m))) as (Hl & _).
  { exists m. rewrite E. split; [apply list_elem_of_here|done]. }
  rewrite forallb_forall in H.
  assert (isspace lbracket = true) as Hs; [|discriminate].
  apply H, list_elem_of_In, list_elem_of_lookup. eauto.
Qed.

Lemma extract_tags_str s :
  extract_tags (PyStr s) = tags_of_matches 1 (finditer s).
Proof.
  simpl. destruct (strip s) eqn:E; [|done]. by rewrite finditer_blank.
Qed.

Lemma foldl_stream_step text tags st last :
  (let '(stream, l) := foldl (stream_step text) (st, last) tags in
   if l <? length text then stream ++ [SegText (drop l text)] else stream)
  = st ++ code_segments text last tags.
Proof.
  revert st last. induction tags as [|t r IH]; intros st last; simpl.
  - destruct (last <? length text); [done|]. by rewrite app_nil_r.
  - rewrite IH. destruct (last <? t_start t); simpl;
      by rewrite <- ?app_assoc.
Qed.

Lemma build_inline_stream_str s :
  build_inline_stream (PyStr s)
  = match extract_tags (PyStr s) with
    | [] => [SegText s]
    | tags => code_segments s 0 tags
    end.
Proof.
  unfold build_inline_stream.
  destruct (extract_tags (PyStr s)) as [|t r] eqn:E; [done|].
  apply (foldl_stream_step s (t :: r) [] 0).
Qed.

Lemma slice_app_drop text a b : a <= b -> slice text a b ++ drop b text = drop a text.
Proof.
  intros H. unfold slice.
  rewrite <- (take_drop (b - a) (drop a text)) at 2. f_equal.
  rewrite drop_drop. f_equal. lia.
Qed.

Lemma slice_nonempty text a b : a < b -> b <= length text -> slice text a b <> [].
Proof.
  intros H1 H2 E. apply (f_equal length) in E. unfold slice in E.
  rewrite length_take, length_drop in E. simpl in E. lia.
Qed.

Lemma slice_empty text a b : b <= a -> slice text a b = [].
Proof. intros H. unfold slice. by replace (b - a) with 0 by lia. Qed.

Lemma chain_head_bounds text pos m r :
  chain text pos (m :: r) ->
  pos <= m_start m /\ m_start m < m_end m /\ m_end m <= length text.
Proof.
  intros Hc.
  destruct (chain_elem text pos (m :: r) m Hc) as (? & Hp%is_pair_bounds & _);
    [apply list_elem_of_here|]. lia.
Qed.

(** The segments stand for the text from the cursor on. *)
Lemma code_segments_source text all pre i ms last :
  chain text last ms ->
  all = pre ++ tags_of_matches i ms -> i = S (length pre) ->
  concat (seg_source text all <$> code_segments text last (tags_of_matches i ms))
  = drop last text.
Proof.
  revert pre i last. induction ms as [|m r IH]; intros pre i last Hc Hall Hi.
  - simpl. destruct (Nat.ltb_spec last (length text)); simpl.
    + by rewrite app_nil_r.
    + by rewrite drop_ge.
  - pose proof (chain_head_bounds _ _ _ _ Hc) as (H1 & H2 & H3).
    destruct Hc as (_ & _ & _ & _ & _ & Hr).
    cbn [tags_of_matches code_segments t_start t_end t_text t_idx].
    rewrite fmap_app, concat_app, fmap_cons. cbn [concat seg_source].
    assert (all !! (i - 1)
            = Some {| t_idx := i; t_text := strip (m_group1 m);
                      t_start := m_start m; t_end := m_end m |}) as ->.
    { rewrite Hall, Hi. simpl. rewrite Nat.sub_0_r.
      by rewrite lookup_app_r, Nat.sub_diag. }
    cbn [t_start t_end].
    rewrite (IH (pre ++ [{| t_idx := i; t_text := strip (m_group1 m);
                            t_start := m_start m; t_end := m_end m |}])
               (S i) (m_end m) Hr).
    + rewrite slice_app_drop by lia.
      destruct (Nat.ltb_spec last (m_start m)); simpl.
      * rewrite app_nil_r. apply slice_app_drop. lia.
      * f_equal. lia.
    + rewrite Hall. by rewrite <- app_assoc.
    + rewrite length_app. simpl. lia.
Qed.

(** The loop emits the gaps of the specification. *)
Lemma code_segments_spec text i ms last :
  chain text last ms -> last <= length text ->
  code_segments text last (tags_of_matches i ms)
  = spec_segments text last (tags_of_matches i ms).
Proof.
  revert i last. induction ms as [|m r IH]; intros i last Hc Hlast.
  - simpl. unfold gap, slice. rewrite take_ge by (rewrite length_drop; lia).
    destruct (Nat.ltb_spec last (length text)).
    + destruct (drop last text) eqn:E; [|done].
      apply drop_nil_inv in E. lia.
    + by rewrite drop_ge.
  - pose proof (chain_head_bounds _ _ _ _ Hc) as (H1 & H2 & H3).
    destruct Hc as (_ & _ & _ & _ & _ & Hr).
    cbn [tags_of_matches code_segments spec_segments t_start t_end t_text t_idx].
    rewrite (IH _ _ Hr H3). f_equal. unfold gap.
    destruct (Nat.ltb_spec last (m_start m)).
    + pose proof (slice_nonempty text last (m_start m)) as Hne.
      destruct (slice text last (m_start m)); [|done]. exfalso. apply Hne; [lia|lia|done].
    + by rewrite slice_empty.
Qed.

(** A text segment of the loop is never empty. *)
Lemma code_segments_text text i ms last c :
  chain text last ms ->
  SegText c ∈ code_segments text last (tags_of_matches i ms) -> c <> [].
Proof.
  revert i last. induction ms as [|m r IH]; intros i last Hc.
  - simpl. destruct (Nat.ltb_spec last (length text)); [|by intros ?%elem_of_nil].
    intros [= ->]%list_elem_of_singleton E. apply drop_nil_inv in E. lia.
  - pose proof (chain_head_bounds _ _ _ _ Hc) as (H1 & H2 & H3).
    destruct Hc as (_ & _ & _ & _ & _ & Hr).
    cbn [tags_of_matches code_segments t_start t_end t_text t_idx].
    intros [Hin|Hin]%elem_of_app.
    + destruct (Nat.ltb_spec last (m_start m)); [|by apply elem_of_nil in Hin].
      apply list_elem_of_singleton in Hin as [= ->].
      apply slice_nonempty; lia.
    + apply elem_of_cons in Hin as [?|Hin]; [done|]. by apply (IH (S i) _ Hr).
Qed.

Lemma code_segments_tags text last tags :
  tag_segments (code_segments text last tags)
  = (fun t => SegTag (t_text t) (t_idx t)) <$> tags.
Proof.
  unfold tag_segments. revert last.
  induction tags as [|t r IH]; intros last; simpl.
  - by destruct (last <? length text).
  - rewrite filter_app, filter_cons_True by done. rewrite IH.
    by destruct (last <? t_start t).
Qed.

Lemma code_segments_alternates text last tags :
  alternates (code_segments text last tags) = true.
Proof.
  revert last. induction tags as [|t r IH]; intros last; simpl.
  - by destruct (last <? length text).
  - destruct (last <? t_start t); simpl; apply IH.
Qed.

End Stream.

(** ** The tokenizer and the stream builder: main results *)

Section TokenizerClaims.
Implicit Types s : list N.

Example extract_tags_two_tags :
  extract_tags
    (PyStr (of_string "Hello [Appeal to Authority] world [Call to Action]."))
  = [ {| t_idx := 1; t_text := of_string "Appeal to Authority";
         t_start := 6; t_end := 27 |};
      {| t_idx := 2; t_text := of_string "Call to Action";
         t_start := 34; t_end := 50 |} ].
Proof. vm_compute. reflexivity. Qed.

Example extract_tags_unbalanced :
  extract_tags (PyStr (of_string "a [b [ c ] d] [] [e"))
  = [ {| t_idx := 1; t_text := of_string "c"; t_start := 5; t_end := 10 |} ].
Proof. vm_compute. reflexivity. Qed.

Example build_inline_stream_two_tags :
  build_inline_stream (PyStr (of_string "[A] mid [B]"))
  = [SegTag (of_string "A") 1; SegText (of_string " mid ");
     SegTag (of_string "B") 2].
Proof. vm_compute. reflexivity. Qed.

Example bracket_pairs_two_tags :
  bracket_pairs (of_string "x [A] mid [B] ]") = [(2, 5); (10, 13)].
Proof. vm_compute. reflexivity. Qed.

(** C1, as stated, fails: a tag segment holds the trimmed interior of the
    brackets, not the brackets, so the contents of the segments of
    ["[A] mid [B]"] concatenate to ["A mid B"]. *)
(** A tag segment holds less than the span of its tag: the contents of a
    stream are shorter than the text by two characters a tag at least. *)
Lemma code_segments_content text i ms last :
  chain text last ms -> last <= length text ->
  length (concat (seg_content <$> code_segments text last (tags_of_matches i ms)))
    + 2 * length ms
  <= length text - last.
Proof.
  revert i last. induction ms as [|m r IH]; intros i last Hc Hlast.
  - simpl. destruct (Nat.ltb_spec last (length text)); simpl.
    + rewrite app_nil_r, length_drop. lia.
    + lia.
  - pose proof (chain_head_bounds _ _ _ _ Hc) as (H1 & H2 & H3).
    destruct Hc as (_ & He & _ & _ & _ & Hr).
    cbn [tags_of_matches code_segments t_start t_end t_text t_idx].
    rewrite fmap_app, concat_app, fmap_cons, length_app. cbn [concat seg_content].
    rewrite length_app. specialize (IH (S i) (m_end m) Hr H3).
    pose proof (strip_length (m_group1 m)) as Hs.
    assert (length (concat (seg_content <$>
              (if last <? m_start m
               then [SegText (slice text last (m_start m))] else [])))
            <= m_start m - last) as Hg.
    { destruct (Nat.ltb_spec last (m_start m)); simpl; [|lia].
      rewrite app_nil_r. unfold slice. rewrite length_take, length_drop. lia. }
    cbn [length] in *. lia.
Qed.

Lemma stream_contents_drop_brackets :
  let s := of_string "[A] mid [B]" in
  concat (seg_content <$> build_inline_stream (PyStr s)) = of_string "A mid B"
  /\ concat (seg_content <$> build_inline_stream (PyStr s)) <> s.
Proof. split; vm_compute; [reflexivity|discriminate]. Qed.

(** C1, amended: for every string [s], the segments of
    [build_inline_stream s], taken in order, cover [s] exactly once: the
    contents of the text segments and, for each tag segment, the part of
    [s] that the tag of the same index spans ([s[start:end]], brackets
    included) concatenate to [s].  The contents alone concatenate to [s]
    exactly when [s] has no tags. *)
Theorem stream_covers_source s :
  concat (seg_source s (extract_tags (PyStr s))
            <$> build_inline_stream (PyStr s)) = s
  /\ (concat (seg_content <$> build_inline_stream (PyStr s)) = s
      <-> extract_tags (PyStr s) = []).
Proof.
  rewrite build_inline_stream_str. split.
  - destruct (extract_tags (PyStr s)) as [|t r] eqn:E.
    { simpl. by rewrite app_nil_r. }
    rewrite <- E, extract_tags_str.
    rewrite (code_segments_source s _ [] 1 (finditer s) 0);
      [apply drop_0|apply finditer_chain|done|done].
  - destruct (extract_tags (PyStr s)) as [|t r] eqn:E.
    { simpl. by rewrite app_nil_r. }
    split; [|done]. intros Hcat. exfalso.
    rewrite <- E, extract_tags_str in Hcat.
    pose proof (code_segments_content s 1 (finditer s) 0 (finditer_chain s)
                  ltac:(lia)) as Hlen.
    rewrite Hcat in Hlen. rewrite extract_tags_str in E.
    destruct (finditer s); [done|]. simpl in Hlen. lia.
Qed.

(** C2: [extract_tags] recognises exactly the complete non-nested bracket
    pairs of the text (every tag spans one, every pair is the span of a
    tag), in scan order, one after the other; the tag at position [k] has
    index [k+1] and its text is the interior of the brackets with the
    surrounding whitespace trimmed; without a pair the result is the empty
    list.  The function is total: it returns a list on every string. *)
Theorem extract_tags_bracket_pairs s :
  let tags := extract_tags (PyStr s) in
  (forall i j,
      (exists t, t ∈ tags /\ t_start t = i /\ t_end t = j) <-> is_pair s i j)
  /\ (forall k t, tags !! k = Some t ->
        t_idx t = S k
        /\ t_text t = strip (slice s (S (t_start t)) (t_end t - 1)))
  /\ (forall k k' t t', k < k' -> tags !! k = Some t -> tags !! k' = Some t' ->
        t_end t <= t_start t')
  /\ ((forall i j, ~ is_pair s i j) -> tags = []).
Proof.
  intros tags. subst tags. rewrite extract_tags_str.
  pose proof (finditer_chain s) as Hc.
  assert (forall k t, tags_of_matches 1 (finditer s) !! k = Some t ->
            exists m, finditer s !! k = Some m /\ t_idx t = S k
                      /\ t_text t = strip (m_group1 m)
                      /\ t_start t = m_start m /\ t_end t = m_end m) as L.
  { intros k t. rewrite tags_of_matches_lookup.
    destruct (finditer s !! k) as [m|]; [|done]. intros [= <-]. by exists m. }
  assert (forall i j,
      (exists t, t ∈ tags_of_matches 1 (finditer s)
                 /\ t_start t = i /\ t_end t = j) <-> is_pair s i j) as P.
  { intros i j. rewrite <- finditer_pairs. split.
    - intros (t & [k Hk]%list_elem_of_lookup & <- & <-).
      destruct (L _ _ Hk) as (m & Hm & _ & _ & -> & ->).
      exists m. split; [|done]. apply list_elem_of_lookup. eauto.
    - intros (m & [k Hk]%list_elem_of_lookup & <- & <-).
      exists {| t_idx := 1 + k; t_text := strip (m_group1 m);
                t_start := m_start m; t_end := m_end m |}.
      split; [|done]. apply list_elem_of_lookup. exists k.
      by rewrite tags_of_matches_lookup, Hk. }
  split_and!.
  - exact P.
  - intros k t Ht. destruct (L _ _ Ht) as (m & Hm & -> & -> & -> & ->).
    split; [done|].
    destruct (chain_elem _ _ _ m Hc) as (_ & _ & <-); [|done].
    apply list_elem_of_lookup. eauto.
  - intros k k' t t' Hlt Ht Ht'.
    destruct (L _ _ Ht) as (m & Hm & _ & _ & _ & ->).
    destruct (L _ _ Ht') as (m' & Hm' & _ & _ & -> & _).
    by apply (chain_sorted s 0 (finditer s) k k').
  - intros Hnone.
    destruct (tags_of_matches 1 (finditer s)) as [|t r] eqn:E; [done|].
    exfalso. apply (Hnone (t_start t) (t_end t)), P.
    exists t. split; [apply list_elem_of_here|done].
Qed.

Lemma bracket_pairs_elem s i j : (i, j) ∈ bracket_pairs s <-> is_pair s i j.
Proof.
  unfold bracket_pairs. rewrite list_elem_of_filter, list_elem_of_bind.
  cbn [fst snd]. rewrite is_pairb_spec. split; [by intros [? _]|].
  intros H. split; [done|]. apply is_pair_bounds in H as H'.
  exists i. rewrite list_elem_of_fmap, elem_of_seq. split; [|lia].
  exists j. rewrite elem_of_seq. split; [done|lia].
Qed.

Lemma bracket_pairs_NoDup s : NoDup (bracket_pairs s).
Proof.
  apply NoDup_filter, NoDup_bind; [| |apply NoDup_seq].
  - intros i1 i2 [a b] _ _ (j1 & [= -> ->] & _)%list_elem_of_fmap
      (j2 & [= -> _] & _)%list_elem_of_fmap. done.
  - intros i _. apply NoDup_fmap_2_strong; [|apply NoDup_seq].
    by intros j1 j2 _ _ [= ->].
Qed.

Lemma finditer_spans_NoDup s :
  NoDup ((fun m => (m_start m, m_end m)) <$> finditer s).
Proof.
  pose proof (finditer_chain s) as Hc.
  apply NoDup_alt. intros k k' [a b].
  rewrite !list_lookup_fmap.
  destruct (finditer s !! k) as [m|] eqn:Hm; [|done].
  destruct (finditer s !! k') as [m'|] eqn:Hm'; [|done].
  simpl. intros [= <- <-] [= Hs He].
  assert (m_start m < m_end m) as Hlt.
  { destruct (chain_elem _ _ _ m Hc) as (_ & ?%is_pair_bounds & _); [|lia].
    apply list_elem_of_lookup. eauto. }
  destruct (Nat.lt_trichotomy k k') as [H|[H|H]]; [|done|].
  - pose proof (chain_sorted _ _ _ _ _ _ _ Hc H Hm Hm'). lia.
  - pose proof (chain_sorted _ _ _ _ _ _ _ Hc H Hm' Hm). lia.
Qed.

(** C3: the number of tags that [extract_tags] returns is the number of
    non-nested bracket pairs of the text, and it is the count that
    [count_tags_in_text] gives for the progress summary. *)
Theorem tag_count_agrees s :
  length (extract_tags (PyStr s)) = length (bracket_pairs s)
  /\ length (extract_tags (PyStr s)) = count_tags_in_text (PyStr s).
Proof.
  rewrite extract_tags_str, length_tags_of_matches. split.
  - rewrite <- (length_fmap (fun m => (m_start m, m_end m))).
    apply Permutation_length, NoDup_Permutation;
      [apply finditer_spans_NoDup|apply bracket_pairs_NoDup|].
    intros [i j]. rewrite bracket_pairs_elem, <- finditer_pairs.
    rewrite list_elem_of_fmap. split.
    + intros (m & [= -> ->] & Hm). by exists m.
    + intros (m & Hm & <- & <-). by exists m.
  - simpl. unfold findall. by rewrite length_fmap.
Qed.

(** C4: without tags the stream is the single text segment holding the
    whole string; with tags the stream is the sequence of the tag segments,
    each with the index and the text of its tag, with a text segment for
    each non-empty gap before, between and after them and none for an empty
    gap, so that no text segment is empty and no two text segments are
    adjacent. *)
Theorem build_inline_stream_shape s :
  let tags := extract_tags (PyStr s) in
  let stream := build_inline_stream (PyStr s) in
  (tags = [] -> stream = [SegText s])
  /\ (tags <> [] ->
        stream = spec_segments s 0 tags
        /\ forall c, SegText c ∈ stream -> c <> [])
  /\ alternates stream = true
  /\ tag_segments stream = (fun t => SegTag (t_text t) (t_idx t)) <$> tags.
Proof.
  intros tags stream. subst tags stream. rewrite build_inline_stream_str.
  destruct (extract_tags (PyStr s)) as [|t r] eqn:E.
  { split_and!; done. }
  rewrite <- E, extract_tags_str. pose proof (finditer_chain s) as Hc.
  split_and!.
  - rewrite extract_tags_str in E. by rewrite E.
  - intros _. split.
    + apply code_segments_spec; [done|lia].
    + intros c. by apply code_segments_text.
  - apply code_segments_alternates.
  - apply code_segments_tags.
Qed.

End TokenizerClaims.

(** ** Username sanitizer *)

Section Sanitize.
Implicit Types x : list N.

Example sanitize_username_mixed :
  sanitize_username (of_string "  Ann Lee/../x@y  ") = of_string "Ann_Lee_.._x_y".
Proof. vm_compute. reflexivity. Qed.

Lemma safe_char_not_space c : safe_char c = true -> isspace c = false.
Proof.
  unfold safe_char, isspace. intros H.
  repeat (rewrite orb_true_iff in H || rewrite andb_true_iff in H).
  rewrite !N.leb_le, !N.eqb_eq in H.
  apply not_true_is_false. intros H'.
  repeat (rewrite orb_true_iff in H' || rewrite andb_true_iff in H').
  rewrite !N.leb_le, !N.eqb_eq in H'. lia.
Qed.

Lemma replace_safe c : safe_char (if safe_char c then c else underscore) = true.
Proof. by destruct (safe_char c) eqn:E. Qed.

Lemma sanitize_username_safe x : forallb safe_char (sanitize_username x) = true.
Proof.
  unfold sanitize_username.
  destruct (_ <$> strip x) as [|c r] eqn:E; [reflexivity|].
  rewrite <- E. rewrite forallb_forall.
  intros c' (d & -> & _)%list_elem_of_In%list_elem_of_fmap. apply replace_safe.
Qed.

Lemma sanitize_username_nonempty x : sanitize_username x <> [].
Proof. unfold sanitize_username. by destruct (_ <$> strip x). Qed.

Lemma sanitize_username_fixed x :
  x <> [] -> forallb safe_char x = true -> sanitize_username x = x.
Proof.
  intros Hne Hsafe. unfold sanitize_username.
  rewrite strip_no_space.
  - assert ((fun c => if safe_char c then c else underscore) <$> x = x) as ->.
    { clear Hne. induction x as [|c r IH]; [done|].
      rewrite fmap_cons. simpl in Hsafe.
      apply andb_prop in Hsafe as [-> Hr]. by rewrite (IH Hr). }
    by destruct x.
  - rewrite forallb_forall in Hsafe |- *. intros c Hc.
    by rewrite (safe_char_not_space c (Hsafe c Hc)).
Qed.

(** C8: [sanitize_username] trims the surrounding whitespace, replaces each
    character outside letters, digits, [.], [_] and [-] by [_], one for
    one, and falls back to the default name when nothing is left; its
    result is never empty and made of those characters only; it is
    idempotent; the empty string and a string of whitespace only give the
    default name. *)
Theorem sanitize_username_spec x :
  (strip x = [] -> sanitize_username x = default_name)
  /\ (strip x <> [] ->
        length (sanitize_username x) = length (strip x)
        /\ forall k c, strip x !! k = Some c ->
             sanitize_username x !! k
             = Some (if safe_char c then c else underscore))
  /\ sanitize_username x <> []
  /\ forallb safe_char (sanitize_username x) = true
  /\ sanitize_username (sanitize_username x) = sanitize_username x
  /\ sanitize_username [] = default_name
  /\ (forallb isspace x = true -> sanitize_username x = default_name).
Proof.
  split_and!.
  - intros E. unfold sanitize_username. by rewrite E.
  - intros Hne. unfold sanitize_username.
    destruct (strip x) as [|c r] eqn:E; [done|]. cbn [fmap list_fmap].
    split; [by rewrite !length_cons, length_fmap|].
    intros k d Hk. change (((fun c => if safe_char c then c else underscore)
                              <$> (c :: r)) !! k = Some (if safe_char d then d else underscore)).
    by rewrite list_lookup_fmap, Hk.
  - apply sanitize_username_nonempty.
  - apply sanitize_username_safe.
  - apply sanitize_username_fixed;
      [apply sanitize_username_nonempty|apply sanitize_username_safe].
  - reflexivity.
  - intros H. unfold sanitize_username. by rewrite strip_all_space.
Qed.

(** The default name comes out for the empty string and for blanks. *)
Lemma sanitize_username_spec_witness :
  sanitize_username (of_string "   ") = default_name.
Proof.
  apply (proj1 (sanitize_username_spec (of_string "   "))). reflexivity.
Defined.

End Sanitize.


(** ** Values made ready for JSON *)

Section MoreJson.
Context {F : Type} (str_other : @pyobj F -> list N).

Abbreviation tj := (_to_jsonable str_other).
Abbreviation pk := (fun kv : @pyobj F * @pyobj F => py_str str_other kv.1).
Abbreviation json_item :=
  (fun kv : @pyobj F * @pyobj F =>
     (exists s, kv.1 = OStr s) /\ jsonable str_other kv.2).

(** Induction on objects, through the containers. *)
Lemma pyobj_induction (P : @pyobj F -> Prop) :
  P ONone -> (forall s, P (OStr s)) -> (forall z, P (OInt z)) ->
  (forall x, P (OFloat x)) -> (forall b, P (OBool b)) ->
  (forall x, P (ONpFloat64 x)) ->
  P ONA -> P ONaT ->
  (forall s, P (OTimestamp s)) -> (forall s, P (ODatetime s)) ->
  (forall z, P (ONpInteger z)) -> (forall x, P (ONpFloating x)) ->
  (forall b, P (ONpBool b)) ->
  (forall items, Forall (fun kv => P kv.1 /\ P kv.2) items -> P (ODict items)) ->
  (forall l, Forall P l -> P (OList l)) ->
  (forall l, Forall P l -> P (OTuple l)) ->
  (forall l, Forall P l -> P (OSet l)) ->
  (forall s, P (OOther s)) ->
  forall o, P o.
Proof.
  intros H1 H2 H3 H4 H5 H64 H6 H7 H8 H9 H10 H11 H12 HD HL HT HS HO.
  fix IH 1. intros [ | s | z | x | b | x | | | s | s | z | x | b
                   | items | l | l | l | s ];
    [ exact H1 | apply H2 | apply H3 | apply H4 | apply H5 | apply H64
    | exact H6
    | exact H7 | apply H8 | apply H9 | apply H10 | apply H11 | apply H12
    | | | | | apply HO ].
  - apply HD. induction items as [|[k v] r IHr]; constructor; [|exact IHr].
    split; apply IH.
  - apply HL. induction l as [|x r IHr]; constructor; [apply IH|exact IHr].
  - apply HT. induction l as [|x r IHr]; constructor; [apply IH|exact IHr].
  - apply HS. induction l as [|x r IHr]; constructor; [apply IH|exact IHr].
Qed.

Lemma jsonable_dict (items : list (@pyobj F * @pyobj F)) :
  jsonable str_other (ODict items)
  <-> NoDup (map pk items) /\ Forall json_item items.
Proof.
  simpl. apply and_iff_compat_l.
  induction items as [|[k v] r IH]; simpl.
  - split; [constructor|done].
  - rewrite IH, Forall_cons. simpl. tauto.
Qed.

Lemma jsonable_list (l : list (@pyobj F)) :
  jsonable str_other (OList l) <-> Forall (jsonable str_other) l.
Proof.
  simpl. induction l as [|x r IH]; simpl.
  - split; [constructor|done].
  - rewrite IH, Forall_cons. tauto.
Qed.

(** *** Assignment to a key *)

Lemma dict_set_keys (d : list (@pyobj F * @pyobj F)) k v :
  Forall (fun kv => exists s, kv.1 = OStr s) d ->
  map pk (dict_set d k v)
  = if decide (k ∈ map pk d) then map pk d else map pk d ++ [k].
Proof.
  induction d as [|[k' v'] r IH]; intros Hk; simpl.
  - done.
  - apply Forall_cons_1 in Hk as [[s Hs] Hr]. simpl in Hs. subst k'.
    simpl. destruct (bool_decide_reflect (s = k)) as [->|Hne]; simpl.
    + rewrite decide_True; [done|]. apply list_elem_of_here.
    + rewrite (IH Hr). destruct (decide (k ∈ map pk r)) as [Hin|Hin].
      * rewrite decide_True; [done|]. by apply list_elem_of_further.
      * rewrite decide_False; [done|].
        intros [?|?]%elem_of_cons; [congruence|tauto].
Qed.

Lemma dict_set_fresh (d : list (@pyobj F * @pyobj F)) k v :
  Forall (fun kv => exists s, kv.1 = OStr s) d ->
  k ∉ map pk d -> dict_set d k v = d ++ [(OStr k, v)].
Proof.
  induction d as [|[k' v'] r IH]; intros Hk Hno; simpl; [done|].
  apply Forall_cons_1 in Hk as [[s Hs] Hr]. simpl in Hs. subst k'.
  simpl in *. apply not_elem_of_cons in Hno as [Hne Hno].
  rewrite bool_decide_eq_false_2 by congruence. by rewrite (IH Hr Hno).
Qed.

Lemma dict_set_items (d : list (@pyobj F * @pyobj F)) k v :
  Forall json_item d -> jsonable str_other v ->
  Forall json_item (dict_set d k v).
Proof.
  induction d as [|[k' v'] r IH]; intros Hd Hv; simpl.
  - constructor; [|done]. simpl. eauto.
  - apply Forall_cons_1 in Hd as [[Hs Hv'] Hr]. simpl in *.
    destruct (is_key k k'); constructor; simpl; auto.
Qed.

Lemma dict_set_jsonable (d : list (@pyobj F * @pyobj F)) k v :
  jsonable str_other (ODict d) -> jsonable str_other v ->
  jsonable str_other (ODict (dict_set d k v)).
Proof.
  rewrite !jsonable_dict. intros [Hnd Hd] Hv. split.
  - rewrite dict_set_keys by (eapply Forall_impl; [exact Hd|]; simpl; tauto).
    destruct (decide (k ∈ map pk d)); [done|].
    apply NoDup_app. split_and!; [done| |apply NoDup_singleton].
    intros x Hx ->%list_elem_of_singleton. tauto.
  - by apply dict_set_items.
Qed.

Lemma dict_of_jsonable (l : list (list N * @pyobj F)) :
  Forall (fun kv => jsonable str_other kv.2) l ->
  jsonable str_other (ODict (dict_of l)).
Proof.
  unfold dict_of.
  assert (jsonable str_other (ODict [])) as H0
    by (apply jsonable_dict; split; constructor).
  revert H0. generalize (@nil (@pyobj F * @pyobj F)).
  induction l as [|[k v] r IH]; intros d Hd Hl; simpl; [done|].
  apply Forall_cons_1 in Hl as [Hv Hr].
  apply IH; [|done]. by apply dict_set_jsonable.
Qed.

Lemma dict_of_distinct (items d : list (@pyobj F * @pyobj F)) :
  Forall (fun kv => exists s, kv.1 = OStr s) (d ++ items) ->
  NoDup (map pk (d ++ items)) ->
  foldl (fun d kv => dict_set d kv.1 kv.2) d
    (map (fun kv => (pk kv, kv.2)) items)
  = d ++ items.
Proof.
  revert d. induction items as [|[k v] r IH]; intros d Hk Hnd; simpl.
  - by rewrite app_nil_r.
  - pose proof Hk as Hk'. apply Forall_app in Hk' as [Hd Hi].
    apply Forall_cons_1 in Hi as [[s Hs] _]. simpl in Hs. subst k. simpl.
    rewrite dict_set_fresh; [|done|].
    + rewrite (IH (d ++ [(OStr s, v)])); rewrite <- ?app_assoc; done.
    + rewrite map_app in Hnd. apply NoDup_app in Hnd as (_ & Hno & _).
      intros Hin. apply (Hno _ Hin). simpl. apply list_elem_of_here.
Qed.

Lemma to_jsonable_jsonable (o : @pyobj F) : jsonable str_other (tj o).
Proof.
  induction o as [ | | | | | | | | | | | | | its H | l H | l H | l H | ]
    using pyobj_induction; simpl; try done.
  - apply dict_of_jsonable, Forall_map.
    eapply Forall_impl; [exact H|]. intros [k v] [_ Hv]. exact Hv.
  - apply jsonable_list, Forall_map. exact H.
  - apply jsonable_list, Forall_map. exact H.
  - apply jsonable_list, Forall_map. exact H.
Qed.

(** X21: whatever the object, [_to_jsonable] returns a value that
    [json.dump] can write: [None], an instance of [str], [int], [float]
    or [bool], a list of such values, or a dictionary of such values whose
    keys are strings.  A [numpy.float64], which is an instance of [float],
    is returned as it is; no pandas missing value, timestamp, date, numpy
    integer, numpy boolean, numpy float of another width, tuple, set or
    object of another class is left at any depth. *)
Theorem to_jsonable_is_jsonable (o : @pyobj F) :
  jsonable str_other (tj o)
  /\ forall x, tj (ONpFloat64 x) = ONpFloat64 x.
Proof. split; [apply to_jsonable_jsonable|done]. Qed.

Lemma to_jsonable_fixed (o : @pyobj F) :
  jsonable str_other o -> tj o = o.
Proof.
  induction o as [ | | | | | | | | | | | | | its H | l H | l H | l H | ]
    using pyobj_induction; try done.
  - intros [Hnd Hi]%jsonable_dict. simpl. f_equal.
    assert (map (fun kv => match kv with
                           | (k, v) => (py_str str_other (tj k), tj v) end) its
            = map (fun kv => (pk kv, kv.2)) its) as ->.
    { apply map_ext_Forall. rewrite Forall_forall in H, Hi |- *.
      intros [k v] Hin. destruct (H _ Hin) as [_ Hv].
      destruct (Hi _ Hin) as [[s Hs] Hj]. simpl in *. subst k.
      by rewrite (Hv Hj). }
    apply (dict_of_distinct its []); simpl; [|done].
    eapply Forall_impl; [exact Hi|]. simpl. tauto.
  - intros Hl%jsonable_list. simpl. f_equal.
    rewrite <- (map_id l) at 2. apply map_ext_Forall.
    rewrite Forall_forall in H, Hl |- *. intros x Hx. by apply H, Hl.
Qed.

(** X22: [_to_jsonable] returns a value of the kinds that [json.dump]
    writes as it found it, at every depth: strings, numbers, booleans and
    [None], and lists and string-keyed dictionaries of them, keep their
    items, their values and their order. *)
Theorem to_jsonable_keeps_json (o : @pyobj F) :
  jsonable str_other o -> tj o = o.
Proof. apply to_jsonable_fixed. Qed.

(** X23: converting twice is converting once: [_to_jsonable] leaves
    what it returned as it is. *)
Theorem to_jsonable_idempotent (o : @pyobj F) :
  tj (tj o) = tj o.
Proof. apply to_jsonable_fixed, to_jsonable_jsonable. Qed.

Lemma dict_set_value (d : list (@pyobj F * @pyobj F)) k v v' :
  Forall (fun kv => exists s, kv.1 = OStr s) d -> NoDup (map pk d) ->
  (OStr k, v') ∈ dict_set d k v <-> v' = v.
Proof.
  induction d as [|[k0 v0] r IH]; intros Hk Hnd; simpl.
  - rewrite list_elem_of_singleton. split; [congruence|by intros ->].
  - apply Forall_cons_1 in Hk as [[s Hs] Hr]. simpl in Hs. subst k0.
    simpl in Hnd. apply NoDup_cons in Hnd as [Hno Hnd]. simpl.
    destruct (bool_decide_reflect (s = k)) as [->|Hne].
    + rewrite elem_of_cons. split; [|intros ->; by left].
      intros [?|Hin]; [congruence|]. exfalso. apply Hno.
      apply (list_elem_of_fmap_2 (fun kv => py_str str_other kv.1)) in Hin.
      exact Hin.
    + rewrite elem_of_cons, (IH Hr Hnd). split; [|tauto].
      intros [?|?]; [congruence|done].
Qed.

(** X24: when keys of a dictionary become the same string (such as [1]
    and ["1"]), the result has one item for that string and its value is
    that of the last of them: under the string of the last key of a
    dictionary the result holds the converted last value and no other. *)
Theorem to_jsonable_last_key_wins (items : list (@pyobj F * @pyobj F)) k v :
  exists d,
    tj (ODict (items ++ [(k, v)])) = ODict d
    /\ forall v', (OStr (py_str str_other (tj k)), v') ∈ d <-> v' = tj v.
Proof.
  eexists. split; [reflexivity|]. intros v'.
  rewrite map_app. unfold dict_of. rewrite foldl_app. simpl.
  set (l := map _ items).
  assert (jsonable str_other (ODict (dict_of l))) as [Hnd Hi]%jsonable_dict.
  { apply dict_of_jsonable. unfold l. apply Forall_map, Forall_forall.
    intros [k0 v0] _. apply to_jsonable_jsonable. }
  apply dict_set_value; [|exact Hnd].
  eapply Forall_impl; [exact Hi|]. simpl. tauto.
Qed.

End MoreJson.

Lemma to_jsonable_keeps_json_witness :
  _to_jsonable (F := unit) (fun _ => [])
    (ODict [(OStr (of_string "items"), OList [OInt 1; ONone]);
            (OStr (of_string "notes"), OStr [])])
  = ODict [(OStr (of_string "items"), OList [OInt 1; ONone]);
           (OStr (of_string "notes"), OStr [])].
Proof.
  apply (to_jsonable_keeps_json (F := unit) (fun _ => [])).
  simpl. split; [|tauto || (repeat split; eauto)].
  apply NoDup_ListNoDup. repeat constructor; vm_compute; intuition discriminate.
Defined.
(** ** Annotation store *)

(** Running a store operation against a world given by its three parts. *)
Ltac run :=
  cbv [with_open closing write flush os_fsync close syscall open_write
       open_read read os_replace os_path_exists os_path_getsize os_makedirs
       json_load json_dump try_except mbind M_bind mret M_ret next_outcome commit
       get_files raise plan files log fst snd negb].

(** The next system call consults the plan: no outcome left, a success, or
    a failure. *)
Ltac next_plan :=
  match goal with
  | |- context [match ?pl with [] => _ | _ :: _ => _ end] =>
      is_var pl; destruct pl as [|[|?] pl]
  end.

Ltac flat_log := rewrite <- ?app_assoc; cbn [app].

Section StoreFacts.
Implicit Types path user_dir model : list N.

Lemma suffix_differs path (sfx : list N) : sfx <> [] -> path ++ sfx <> path.
Proof.
  intros Hne E. apply (f_equal length) in E. rewrite length_app in E.
  destruct sfx; [done|]. simpl in E. lia.
Qed.



End StoreFacts.

Section Save.
Context {F : Type} (str_other : @pyobj F -> list N)
  (json_dumps : @pyobj F -> list N * option exn).
Implicit Types path user_dir model : list N.

(** The six system calls of a save, in order; [stop] is the exception
    that ends [json.dump], if any, after it wrote [new]. *)
Lemma save_run (path tmp new : list N) (stop : option exn) fs pl lg :
  tmp <> path ->
  let out :=
    (with_open (open_write tmp) tmp
       ((write tmp new;;
         match stop with None => mret tt | Some e => raise e end);;
        flush tmp;; os_fsync tmp);;
     os_replace tmp path) {| files := fs; plan := pl; log := lg |} in
  exists entries, log out.2 = lg ++ entries
    /\ Forall (fun e => e.2 !! path = fs !! path
                        \/ (e.1 = OpReplace tmp path /\ e.2 !! path = Some new))
         entries
    /\ match out.1 with
       | Ok _ =>
           stop = None
           /\ fst <$> entries
              = [OpOpenWrite tmp; OpWrite tmp; OpFlush tmp; OpFsync tmp;
                 OpClose tmp; OpReplace tmp path]
           /\ (forall e, e ∈ entries -> e.1 = OpFsync tmp -> e.2 !! tmp = Some new)
           /\ files out.2 !! path = Some new
       | Raise e =>
           (e = OSError \/ stop = Some e)
           /\ files out.2 !! path = fs !! path
           /\ Forall (fun e => e.2 !! path = fs !! path) entries
       end
    /\ (out.1 = Ok tt
        <-> stop = None /\ Forall (fun o => o = Succeeds) (take 6 pl)).
Proof.
  intros Hne out. subst out. destruct stop as [x|]; run.
  all: repeat (first [next_plan | rewrite lookup_insert_eq]; run);
    flat_log; eexists; (split; [reflexivity|]).
  all: cbv [fst snd firstn fmap list_fmap].
  all: split_and!; repeat (apply Forall_cons_2 || apply Forall_nil_2).
  all: rewrite ?lookup_insert_eq; rewrite ?lookup_insert_ne by done.
  all: try done; auto.
  all: try (intros e He Hop;
            repeat (apply elem_of_cons in He as [->|He]); try discriminate Hop;
            [by rewrite lookup_insert_eq | by apply elem_of_nil in He]).
  all: split; [intros ?|intros [? H]];
    first [ done
          | by split; [|repeat (apply Forall_cons_2 || apply Forall_nil_2)]
          | by repeat (apply Forall_cons_1 in H as [? H]) ].
Qed.


End Save.

Section Load.
Context {J : Type} (json_loads : list N -> result J) (empty_dict : J).
Implicit Types path user_dir model : list N.

Lemma load_run (path bad : list N) fs pl lg :
  let out :=
    (e ← os_path_exists path;
     if negb e then mret empty_dict else
     n ← os_path_getsize path;
     if n =? 0 then mret empty_dict else
     try_except
       (with_open (open_read path) path (json_load json_loads path))
       (fun e =>
          match e with
          | JSONDecodeError =>
              try_except (os_replace path bad) (fun _ => mret tt);;
              mret empty_dict
          | _ => mret empty_dict
          end)) {| files := fs; plan := pl; log := lg |} in
  let sized := default Succeeds (head pl) = Succeeds in
  (sized -> exists v, out.1 = Ok v)
  /\ (fs !! path = None \/ (fs !! path = Some [] /\ sized) ->
        out.1 = Ok empty_dict /\ files out.2 = fs)
  /\ (forall c, fs !! path = Some c ->
        files out.2 = fs
        \/ (json_loads c = Raise JSONDecodeError /\ out.1 = Ok empty_dict
            /\ files out.2 = <[bad := c]> (delete path fs)))
  /\ (forall c, fs !! path = Some c -> c <> [] ->
        json_loads c = Raise JSONDecodeError ->
        Forall (fun o => o = Succeeds) (take 5 pl) ->
        out.1 = Ok empty_dict /\ files out.2 = <[bad := c]> (delete path fs))
  /\ (forall c v, fs !! path = Some c -> c <> [] -> json_loads c = Ok v ->
        Forall (fun o => o = Succeeds) (take 4 pl) ->
        out.1 = Ok v /\ files out.2 = fs)
  /\ (forall c, fs !! path = Some c -> c <> [] -> sized ->
        ~ Forall (fun o => o = Succeeds) (take 4 pl) ->
        out.1 = Ok empty_dict /\ files out.2 = fs)
  /\ (forall c e, fs !! path = Some c -> c <> [] -> sized ->
        json_loads c = Raise e -> e <> JSONDecodeError ->
        out.1 = Ok empty_dict /\ files out.2 = fs).
Proof.
  intros out sized. subst out sized. run.
  destruct (fs !! path) as [c|] eqn:Hc.
  2:{ rewrite bool_decide_eq_false_2 by (by intros [? ?]). run.
      split_and!; eauto; done. }
  rewrite bool_decide_eq_true_2 by eauto. run.
  destruct c as [|d c].
  { next_plan; run; rewrite ?Hc; run; cbn [length Nat.eqb head default]; run.
    all: split_and!; eauto; try done.
    all: intros; simplify_eq; try done.
    all: by destruct_or?; destruct_and?. }
  destruct (json_loads (d :: c)) as [v|x] eqn:Hj.
  all: repeat (first [next_plan | rewrite Hc | rewrite Hj]; run;
               cbn [length Nat.eqb]; run).
  all: try (destruct x; run;
            repeat (first [next_plan | rewrite Hc | rewrite Hj]; run)).
  all: cbv [firstn head default].
  all: split_and!; eauto.
  all: intros; simplify_eq;
    repeat match goal with
      | H : Forall _ (_ :: _) |- _ => apply Forall_cons_1 in H as [? H]
      | H : _ \/ _ |- _ => destruct H
      | H : _ /\ _ |- _ => destruct H
      end; simplify_eq; eauto.
  all: try congruence.
  all: try (split; congruence).
  all: try (exfalso;
            match goal with H : ~ Forall _ _ |- _ => apply H end;
            by repeat (apply Forall_cons_2 || apply Forall_nil_2)).
Qed.

(** C6, as stated, fails: with [deep_loads] for [json.load], a file of
    two thousand opening brackets is not JSON, yet it is read as empty and
    left where it is; nothing goes to the path plus [.corrupt]. *)
Lemma deep_text_not_quarantined :
  let path := json_path_for (of_string "/srv/annotations/ann")
                (of_string "gpt4o_layer2_annotations") 0 in
  let text := replicate 2000 91%N in
  let w := {| files := {[ path := text ]}; plan := []; log := [] |} in
  let out :=
    load_existing_annotations deep_loads []
      (of_string "/srv/annotations/ann")
      (of_string "gpt4o_layer2_annotations") 0 w in
  (forall v, deep_loads text <> Ok v)
  /\ out.1 = Ok []
  /\ files out.2 !! path = Some text
  /\ files out.2 !! (path ++ corrupt_suffix) = None.
Proof.
  split; [intros v; vm_compute; discriminate|].
  split_and!; vm_compute; reflexivity.
Qed.

(** C6, amended: [load_existing_annotations] returns the empty record
    when the file is absent or of length zero, leaving the files as they
    are; when [json.load] rejects the text of the file with
    [JSONDecodeError] (and the system calls succeed) it renames the file
    to the same path plus [.corrupt] and returns the empty record; it
    returns the parsed record when the text is JSON; whenever opening,
    reading or closing the file fails, or [json.load] raises another
    exception, it returns the empty record and leaves the files as they
    are.  None of these makes it raise: with the size of the file read,
    it always returns.  The text of the file is never lost: afterwards it
    is at the path or at the path plus [.corrupt]. *)
Theorem load_existing_annotations_tolerant user_dir model row_index w :
  let path := json_path_for user_dir model row_index in
  let bad := path ++ corrupt_suffix in
  let out :=
    load_existing_annotations json_loads empty_dict user_dir model row_index w in
  let sized := default Succeeds (head (plan w)) = Succeeds in
  (sized -> exists v, out.1 = Ok v)
  /\ (files w !! path = None \/ (files w !! path = Some [] /\ sized) ->
        out.1 = Ok empty_dict /\ files out.2 = files w)
  /\ (forall c, files w !! path = Some c ->
        files out.2 = files w
        \/ (json_loads c = Raise JSONDecodeError /\ out.1 = Ok empty_dict
            /\ files out.2 = <[bad := c]> (delete path (files w))))
  /\ (forall c, files w !! path = Some c -> c <> [] ->
        json_loads c = Raise JSONDecodeError ->
        Forall (fun o => o = Succeeds) (take 5 (plan w)) ->
        out.1 = Ok empty_dict
        /\ files out.2 = <[bad := c]> (delete path (files w)))
  /\ (forall c v, files w !! path = Some c -> c <> [] -> json_loads c = Ok v ->
        Forall (fun o => o = Succeeds) (take 4 (plan w)) ->
        out.1 = Ok v /\ files out.2 = files w)
  /\ (forall c, files w !! path = Some c -> c <> [] -> sized ->
        ~ Forall (fun o => o = Succeeds) (take 4 (plan w)) ->
        out.1 = Ok empty_dict /\ files out.2 = files w)
  /\ (forall c e, files w !! path = Some c -> c <> [] -> sized ->
        json_loads c = Raise e -> e <> JSONDecodeError ->
        out.1 = Ok empty_dict /\ files out.2 = files w).
Proof. intros path bad out sized. destruct w as [fs pl lg]. apply load_run. Qed.

End Load.

(** ** Rows and payloads *)

Section RowsPayloads.
Context (int_of_str : list N -> option Z).

Lemma truthy_false v :
  truthy v = false <-> v = PyNone \/ v = PyStr [] \/ v = PyInt 0.
Proof.
  assert (forall w, w = PyNone \/ w = PyStr [] \/ w = PyInt 0 ->
                    truthy w = false) as R
    by (by intros w [->|[->| ->]]).
  split; [|apply R].
  destruct v as [|[|c s]| |z]; simpl; auto; try done.
  destruct (Z.eqb_spec z 0) as [->|Hz]; simpl; auto. done.
Qed.

(** C10, as stated, fails on a blank cell: [read_excel] gives NaN for it,
    NaN is true for [or], and the chain stops there. *)
Lemma blank_cell_stops_fallback :
  let model := of_string "gpt5_layer2_annotations" in
  let df_row : gmap (list N) pyval :=
    {[ model := PyNaN; col_default_model := PyStr (of_string "[A] x") ]} in
  tagged_text_of df_row (Some model) = PyNaN
  /\ spec_tagged_text df_row (Some model) = PyStr (of_string "[A] x")
  /\ extract_tags (tagged_text_of df_row (Some model)) = []
  /\ build_inline_stream (tagged_text_of df_row (Some model)) = [SegText []].
Proof. vm_compute. done. Qed.

(** C10, amended: the tagged text is resolved through the fixed priority
    list model column, default model column, translation column, empty
    string, each step taken exactly when the value before it is false for
    Python: the column is absent, or its cell is [None], the empty string
    or zero.  A blank cell, read as NaN, is true: it is taken as it is and
    no fallback occurs. *)
Theorem tagged_text_priority (df_row : gmap (list N) pyval) model :
  let a := row_get df_row model in
  let b := row_get df_row (Some col_default_model) in
  let c := row_get df_row (Some col_translation) in
  tagged_text_of df_row model
  = (if truthy a then a
     else if truthy b then b
     else if truthy c then c
     else PyStr [])
  /\ (forall v, truthy v = false <-> v = PyNone \/ v = PyStr [] \/ v = PyInt 0)
  /\ (forall k, row_get df_row (Some k) = PyNone
                <-> df_row !! k = None \/ df_row !! k = Some PyNone)
  /\ truthy PyNaN = true.
Proof.
  intros a b c. split_and!.
  - unfold tagged_text_of, py_or. fold a b c.
    destruct (truthy a) eqn:Ha; rewrite ?Ha; [done|].
    destruct (truthy b) eqn:Hb; rewrite ?Hb; [done|]. done.
  - apply truthy_false.
  - intros k. unfold row_get.
    destruct (df_row !! k) as [v|]; simpl; [|split; auto].
    split; [intros ->; by right|]. intros [?|[= ->]]; done.
  - done.
Qed.

(** On rows whose text cells are strings or [None], the code follows the
    priority list of the specification. *)
Lemma tagged_text_of_text_row (df_row : gmap (list N) pyval) model :
  (forall k, df_row !! k <> Some PyNaN
             /\ forall z, df_row !! k <> Some (PyInt z)) ->
  tagged_text_of df_row model = spec_tagged_text df_row model.
Proof.
  intros H.
  assert (forall key, truthy (row_get df_row key) = negb (blank (row_get df_row key)))
    as T.
  { intros [k|]; [|done]. unfold row_get. destruct (H k) as [H1 H2].
    destruct (df_row !! k) as [[|[|? ?]| |z]|]; simpl; try done.
    by destruct (H2 z). }
  unfold tagged_text_of, spec_tagged_text, py_or. rewrite <- !T.
  destruct (truthy (row_get df_row model)) eqn:Ha; rewrite ?Ha; [done|].
  by destruct (truthy (row_get df_row (Some col_default_model))) eqn:Hb;
    rewrite ?Hb.
Qed.

(** The items of a payload are aligned with the tags. *)
Lemma build_payload_inline_items (username model : option (list N))
    (row_idx : nat) (transcript : pyval) (df_row : gmap (list N) pyval)
    (s : list N) (form_data : gmap (list N) (list N)) (notes_ now : list N) :
  let tags := extract_tags (PyStr s) in
  let its :=
    items (build_payload_inline int_of_str username model row_idx transcript
             df_row tags form_data notes_ now) in
  length its = length tags
  /\ forall i it, its !! i = Some it ->
       tag_index it = S i
       /\ decision it = form_data !! decision_key (S i)
       /\ exists t, tags !! i = Some t /\ tag_text it = t_text t.
Proof.
  intros tags its. subst its. cbn [items build_payload_inline].
  unfold build_items. split; [by rewrite length_fmap|].
  intros i it. rewrite list_lookup_fmap.
  destruct (tags !! i) as [t|] eqn:Ht; [|done]. intros [= <-].
  subst tags. rewrite extract_tags_str, tags_of_matches_lookup in Ht.
  destruct (finditer s !! i) as [m|]; [|done]. injection Ht as <-.
  cbn. eauto.
Qed.

(** C7, where the code departs from it: the decision of an item is the
    form field as it was sent, whatever it holds; for the text ["[A] b"]
    and the field [dec_tag_1 = maybe] the item's decision is ["maybe"],
    which is none of agree, disagree and unset. *)
Lemma build_payload_inline_any_decision :
  let tags := extract_tags (PyStr (of_string "[A] b")) in
  let form_data : gmap (list N) (list N) :=
    {[ of_string "dec_tag_1" := of_string "maybe" ]} in
  let its :=
    items (build_payload_inline (fun _ => None) (Some (of_string "ann"))
             (Some col_default_model) 0 (PyInt 1) ∅ tags form_data [] []) in
  its = [ {| tag_index := 1; tag_text := of_string "A";
             decision := Some (of_string "maybe") |} ]
  /\ forallb (fun it => valid_decision (decision it)) its = false.
Proof. vm_compute. done. Qed.

End RowsPayloads.

(** ** File operations of the store and of the handlers *)

Section Touches.
Context {F J : Type} (str_other : @pyobj F -> list N)
  (json_dumps : @pyobj F -> list N * option exn)
  (json_loads : list N -> result J) (empty_dict : J).
Implicit Types ok : fsop -> Prop.

Lemma touches_silent {A} ok (m : M A) :
  (forall w, log (m w).2 = log w) -> touches ok m.
Proof. intros H w. exists []. by rewrite H, app_nil_r. Qed.

Lemma touches_ret {A} ok (a : A) : touches ok (mret a).
Proof. by apply touches_silent. Qed.

Lemma touches_raise {A} ok e : touches ok (raise e : M A).
Proof. by apply touches_silent. Qed.

Lemma touches_next_outcome ok : touches ok next_outcome.
Proof. apply touches_silent. intros [fs [|o pl] lg]; done. Qed.

Lemma touches_get_files ok : touches ok get_files.
Proof. by apply touches_silent. Qed.

Lemma touches_commit ok op fs : ok op -> touches ok (commit op fs).
Proof.
  intros H w. exists [(op, fs)]. split; [done|].
  apply Forall_cons_2; [done|apply Forall_nil_2].
Qed.

Lemma touches_bind {A B} ok (m : M A) (f : A -> M B) :
  touches ok m -> (forall a, touches ok (f a)) -> touches ok (m ≫= f).
Proof.
  intros Hm Hf w. destruct (Hm w) as (l1 & E1 & F1).
  unfold mbind, M_bind. destruct (m w) as [[a|e] w1]; simpl in *.
  - destruct (Hf a w1) as (l2 & E2 & F2). exists (l1 ++ l2).
    rewrite E2, E1, app_assoc. split; [done|]. by apply Forall_app.
  - by exists l1.
Qed.

Lemma touches_try_except {A} ok (m : M A) (h : exn -> M A) :
  touches ok m -> (forall e, touches ok (h e)) -> touches ok (try_except m h).
Proof.
  intros Hm Hh w. destruct (Hm w) as (l1 & E1 & F1).
  unfold try_except. destruct (m w) as [[a|e] w1]; simpl in *.
  - by exists l1.
  - destruct (Hh e w1) as (l2 & E2 & F2). exists (l1 ++ l2).
    rewrite E2, E1, app_assoc. split; [done|]. by apply Forall_app.
Qed.

Lemma touches_mono {A} ok ok' (m : M A) :
  (forall op, ok op -> ok' op) -> touches ok m -> touches ok' m.
Proof.
  intros H Hm w. destruct (Hm w) as (l & E & Fl). exists l. split; [done|].
  eapply Forall_impl; [exact Fl|]. intros e. apply H.
Qed.

Lemma touches_syscall ok op : ok op -> touches ok (syscall op).
Proof.
  intros H. unfold syscall.
  apply touches_bind; [apply touches_next_outcome|]. intros o.
  apply touches_bind; [apply touches_get_files|]. intros fs.
  apply touches_bind; [by apply touches_commit|]. intros _.
  destruct o; [apply touches_ret|apply touches_raise].
Qed.

Lemma touches_closing {A} ok p (body : M A) :
  ok (OpClose p) -> touches ok body -> touches ok (closing p body).
Proof.
  intros Hc Hb w. destruct (Hb w) as (l1 & E1 & F1).
  unfold closing. destruct (body w) as [r w1]; simpl in *.
  destruct (touches_syscall ok (OpClose p) Hc w1) as (l2 & E2 & F2).
  unfold close. destruct (syscall (OpClose p) w1) as [[[]|e] w2]; simpl in *;
    exists (l1 ++ l2); rewrite E2, E1, app_assoc;
    (split; [done|]; by apply Forall_app).
Qed.

(** Every step of a store operation is a step on the paths it names. *)
Ltac touches_step :=
  first
    [ apply touches_ret | apply touches_raise | apply touches_next_outcome
    | apply touches_get_files
    | apply touches_commit | apply touches_syscall | apply touches_closing
    | apply touches_try_except | apply touches_bind
    | match goal with
      | |- forall _, _ => intro
      | |- touches _ (match ?o with _ => _ end) => destruct o
      end ].

Lemma on_paths_intro ps op : Forall (fun p => p ∈ ps) (op_paths op) -> on_paths ps op.
Proof. intros H p Hp. by eapply Forall_forall in H. Qed.

Ltac on_paths_solve :=
  apply on_paths_intro; cbn [op_paths];
  repeat (apply Forall_cons_2 || apply Forall_nil_2);
  repeat first [ apply list_elem_of_here | apply list_elem_of_further ].

Lemma touches_save user_dir model row_index p :
  touches (on_paths (store_paths user_dir model row_index))
    (save_annotations str_other json_dumps user_dir model row_index p).
Proof.
  unfold save_annotations, store_paths, with_open, open_write, json_dump,
    write, flush, os_fsync, os_replace.
  repeat (touches_step; try on_paths_solve).
Qed.

Lemma touches_load user_dir model row_index :
  touches (on_paths (store_paths user_dir model row_index))
    (load_existing_annotations json_loads empty_dict user_dir model row_index).
Proof.
  unfold load_existing_annotations, store_paths, with_open, open_read,
    json_load, read, os_replace, os_path_exists, os_path_getsize.
  repeat (touches_step; try on_paths_solve).
Qed.

End Touches.

Section Returns.

Lemma returns_ret {A} (Q : A -> Prop) a : Q a -> returns Q (mret a).
Proof. intros H w b [= <-]. done. Qed.

Lemma returns_bind {A B} (Q : B -> Prop) (m : M A) (f : A -> M B) :
  (forall a, returns Q (f a)) -> returns Q (m ≫= f).
Proof.
  intros H w b. unfold mbind, M_bind.
  destruct (m w) as [[a|e] w1]; [apply H|done].
Qed.

Lemma touches_bind_returns {A B} ok (Q : A -> Prop) (m : M A) (f : A -> M B) :
  touches ok m -> returns Q m -> (forall a, Q a -> touches ok (f a)) ->
  touches ok (m ≫= f).
Proof.
  intros Hm Hr Hf w. destruct (Hm w) as (l1 & E1 & F1). specialize (Hr w).
  unfold mbind, M_bind. destruct (m w) as [[a|e] w1]; simpl in *.
  - destruct (Hf a (Hr a eq_refl) w1) as (l2 & E2 & F2). exists (l1 ++ l2).
    rewrite E2, E1, app_assoc. split; [done|]. by apply Forall_app.
  - by exists l1.
Qed.

End Returns.

Section Annotate.
Context {F J V : Type} (nan : F) (str_other : @pyobj F -> list N)
  (json_dumps : @pyobj F -> list N * option exn)
  (json_loads : list N -> result J) (empty_dict : J)
  (existing_view : J -> result V) (count_decided : J -> result nat)
  (int_of_str : list N -> option Z)
  (ANNOTATIONS_BASE : list N) (MODELS : list (list N))
  (DF : list (gmap (list N) pyval)).

Lemma first_model_known m : first_model MODELS = Some m -> m ∈ MODELS.
Proof.
  unfold first_model. destruct MODELS; [done|]. intros [= ->].
  apply list_elem_of_here.
Qed.

(** The model that [annotate] works with is a known one. *)
Lemma annotate_model_known req m :
  annotate_model MODELS req = Some m -> m ∈ MODELS.
Proof.
  unfold annotate_model.
  destruct (opt_or _ _) as [m'|]; [|apply first_model_known].
  case_bool_decide as E; [by intros [= <-]|apply first_model_known].
Qed.

(** An unknown model of the query is replaced by the first known one. *)
Lemma annotate_model_unknown req m :
  args req !! key_model = Some m -> m <> [] -> m ∉ MODELS ->
  annotate_model MODELS req = first_model MODELS.
Proof.
  intros Hm Hne Hun. unfold annotate_model. rewrite Hm.
  destruct m as [|c m]; [done|]. cbn [opt_or].
  by rewrite bool_decide_eq_false_2.
Qed.

Lemma touches_makedirs_each user_dir models row_idx :
  (forall m, m ∈ models -> m ∈ MODELS) ->
  touches (annotate_ok MODELS (length DF) user_dir row_idx)
    (makedirs_each user_dir models).
Proof.
  intros H. induction models as [|m r IH]; simpl.
  - apply touches_ret.
  - apply touches_bind.
    + apply touches_syscall. right. left. exists m.
      split; [apply H, list_elem_of_here|done].
    + intros _. apply IH. intros m' Hm'. by apply H, list_elem_of_further.
Qed.

Lemma touches_current_user_dir req row_idx :
  touches (annotate_ok MODELS (length DF)
             (session_user_dir ANNOTATIONS_BASE req) row_idx)
    (current_user_dir ANNOTATIONS_BASE MODELS req).
Proof.
  unfold current_user_dir, session_user_dir.
  destruct (session_username req) as [[|c u]|]; try apply touches_ret.
  unfold ensure_user_dirs.
  apply touches_bind; [apply touches_syscall; by left|]. intros _.
  apply touches_bind; [by apply touches_makedirs_each|]. intros _.
  apply touches_ret.
Qed.

Lemma returns_current_user_dir req :
  returns (fun d => d = session_user_dir ANNOTATIONS_BASE req)
    (current_user_dir ANNOTATIONS_BASE MODELS req).
Proof.
  unfold current_user_dir, session_user_dir.
  destruct (session_username req) as [[|c u]|]; try by apply returns_ret.
  unfold ensure_user_dirs.
  apply returns_bind. intros _. apply returns_bind. intros _.
  by apply returns_ret.
Qed.

Lemma touches_lift {A} ok (r : result A) : touches ok (lift r).
Proof. by apply touches_silent. Qed.

(** Every file operation of [annotate] creates a directory of the user or
    works on the record of a known model and of a row of the data frame. *)
Lemma touches_annotate row_idx req :
  touches (annotate_ok MODELS (length DF)
             (session_user_dir ANNOTATIONS_BASE req) row_idx)
    (annotate nan str_other json_dumps json_loads empty_dict existing_view int_of_str
       ANNOTATIONS_BASE MODELS DF row_idx req).
Proof.
  unfold annotate.
  destruct (negb (truthy_opt (session_username req))); [apply touches_ret|].
  destruct (DF !! row_idx) as [df_row|] eqn:Hrow; [|apply touches_raise].
  apply lookup_lt_Some in Hrow.
  assert (forall d m, annotate_model MODELS req = Some m ->
            forall op, on_paths (store_paths d m row_idx) op ->
              annotate_ok MODELS (length DF) d row_idx op) as Hok.
  { intros d m Hm op Hop. right. right. split; [done|]. exists m.
    split; [by apply annotate_model_known with req|done]. }
  destruct (is_post req).
  - eapply touches_bind_returns;
      [apply touches_current_user_dir|apply returns_current_user_dir|].
    intros d ->. apply touches_bind; [|intros _; apply touches_ret].
    unfold save_for. destruct (annotate_model MODELS req) as [m|] eqn:Hm;
      [|apply touches_raise].
    eapply touches_mono; [apply (Hok _ m eq_refl)|apply touches_save].
  - eapply touches_bind_returns;
      [apply touches_current_user_dir|apply returns_current_user_dir|].
    intros d ->. apply touches_bind.
    + unfold load_for. destruct (annotate_model MODELS req) as [m|] eqn:Hm;
        [|apply touches_raise].
      eapply touches_mono; [apply (Hok _ m eq_refl)|apply touches_load].
    + intros existing. apply touches_bind; [apply touches_lift|].
      intros view. apply touches_ret.
Qed.

(** C9, amended: in [annotate], a row index out of range stops the request
    with [IndexError] before any file operation; a model key that is not a
    known one is not rejected but replaced by the first known model; so the
    model of the request is always a known one, and every file operation
    of the request either creates a directory of the user or works on the
    record (file, temporary file, quarantined file) of a known model and
    of a row of the data frame. *)
Theorem annotate_checks_before_files row_idx req w :
  let run := annotate nan str_other json_dumps json_loads empty_dict existing_view int_of_str
               ANNOTATIONS_BASE MODELS DF row_idx req in
  (truthy_opt (session_username req) = true -> length DF <= row_idx ->
     run w = (Raise IndexError, w))
  /\ (forall m, annotate_model MODELS req = Some m -> m ∈ MODELS)
  /\ (forall m, args req !! key_model = Some m -> m <> [] -> m ∉ MODELS ->
        annotate_model MODELS req = first_model MODELS)
  /\ exists entries, log (run w).2 = log w ++ entries
       /\ Forall (fun e => annotate_ok MODELS (length DF)
                             (session_user_dir ANNOTATIONS_BASE req) row_idx
                             e.1) entries.
Proof.
  intros run. split_and!.
  - intros Hs Hlen. subst run. unfold annotate. rewrite Hs. simpl.
    by rewrite (lookup_ge_None_2 DF row_idx Hlen).
  - apply annotate_model_known.
  - apply annotate_model_unknown.
  - apply touches_annotate.
Qed.

End Annotate.

(** ** The handlers on the sample configuration *)

Section Samples.

(** C9, as stated, fails: a save whose query names an unknown model is not
    rejected; it is carried out for the first known model and answered by
    a redirection. *)
Lemma annotate_serves_unknown_model :
  let req := sample_request true (of_string "no_such_model") in
  let out := sample_annotate 0 req sample_world in
  let user_dir := of_string "/srv/annotations/ann" in
  let path := json_path_for user_dir col_default_model 0 in
  bool_decide (of_string "no_such_model" ∈ sample_models) = false
  /\ out.1 = Ok (RedirectAnnotate 0 (Some col_default_model))
  /\ fst <$> log out.2
     = [OpMakedirs user_dir;
        OpMakedirs (Path.join user_dir [col_default_model]);
        OpMakedirs (Path.join user_dir [of_string "gpt5_layer2_annotations"]);
        OpOpenWrite (path ++ tmp_suffix); OpWrite (path ++ tmp_suffix);
        OpFlush (path ++ tmp_suffix); OpFsync (path ++ tmp_suffix);
        OpClose (path ++ tmp_suffix); OpReplace (path ++ tmp_suffix) path]
  /\ files out.2 !! path = Some (of_string "{ok}").
Proof. vm_compute. done. Qed.

(** A row index out of range: [IndexError], and the world is untouched. *)
Example annotate_row_out_of_range :
  sample_annotate 1 (sample_request true col_default_model) sample_world
  = (Raise IndexError, sample_world).
Proof. vm_compute. reflexivity. Qed.

(** [index] has no membership check: it looks for, reads and quarantines
    a file at a path made from whatever model the query names. *)
Example index_uses_any_model :
  let stray := of_string "/srv/annotations/ann/../../etc/T1.json" in
  let w := {| files := {[ stray := of_string "secret" ]};
              plan := []; log := [] |} in
  let out := sample_index (sample_request false (of_string "../../etc")) w in
  json_path_for (of_string "/srv/annotations/ann") (of_string "../../etc") 0
  = stray
  /\ drop 3 (fst <$> log out.2)
     = [OpExists stray; OpExists stray; OpGetsize stray; OpOpenRead stray;
        OpRead stray; OpClose stray;
        OpReplace stray (stray ++ corrupt_suffix)]
  /\ files out.2 !! stray = None
  /\ files out.2 !! (stray ++ corrupt_suffix) = Some (of_string "secret").
Proof. vm_compute. done. Qed.

(** A save and the load that follows it. *)
Example save_then_load :
  let p := {| annotator := Some (of_string "ann");
              p_model := Some col_default_model;
              row_index := Some 0%Z; transcript_no := Some 1%Z;
              title := PyNone; stance := PyNone; items := [];
              notes := of_string "ok"; saved_at := [] |} in
  let user_dir := of_string "/srv/annotations/ann" in
  ((save_annotations (fun _ => []) sample_dumps user_dir col_default_model 0
      (payload_obj tt p);;
    load_existing_annotations sample_loads [] user_dir col_default_model 0)
     sample_world).1
  = Ok (of_string "{ok}").
Proof. vm_compute. reflexivity. Qed.

(** A write that fails half way leaves a partial temporary file and the
    previous record in place. *)
Example save_fails_half_way :
  let user_dir := of_string "/srv/annotations/ann" in
  let path := json_path_for user_dir col_default_model 0 in
  let p := {| annotator := Some (of_string "ann");
              p_model := Some col_default_model;
              row_index := Some 0%Z; transcript_no := Some 1%Z;
              title := PyNone; stance := PyNone; items := [];
              notes := of_string "new"; saved_at := [] |} in
  let w := {| files := {[ path := of_string "{old}" ]};
              plan := [Succeeds; Fails 2]; log := [] |} in
  let out :=
    save_annotations (fun _ => []) sample_dumps user_dir col_default_model 0
      (payload_obj tt p) w in
  out.1 = Raise OSError
  /\ files out.2 !! path = Some (of_string "{old}")
  /\ files out.2 !! (path ++ tmp_suffix) = Some (of_string "{n").
Proof. vm_compute. done. Qed.

(** A record that is not JSON is moved aside and read as empty. *)
Example load_quarantines_bad_json :
  let user_dir := of_string "/srv/annotations/ann" in
  let path := json_path_for user_dir col_default_model 0 in
  let w := {| files := {[ path := of_string "not json" ]};
              plan := []; log := [] |} in
  let out :=
    load_existing_annotations sample_loads [] user_dir col_default_model 0 w in
  out.1 = Ok []
  /\ files out.2 !! path = None
  /\ files out.2 !! (path ++ corrupt_suffix) = Some (of_string "not json").
Proof. vm_compute. done. Qed.

(** The size of the file is asked for outside the [try]: when that call
    fails, [OSError] leaves [load_existing_annotations]. *)
Example load_raises_when_getsize_fails :
  let user_dir := of_string "/srv/annotations/ann" in
  let path := json_path_for user_dir col_default_model 0 in
  let w := {| files := {[ path := of_string "{ok}" ]};
              plan := [Fails 0]; log := [] |} in
  let out :=
    load_existing_annotations sample_loads [] user_dir col_default_model 0 w in
  out.1 = Raise OSError /\ files out.2 = files w.
Proof. vm_compute. done. Qed.

(** When [json.dump] stops on a character that it cannot encode, its
    exception reaches the caller, the text written so far stays in the
    temporary file and the previous record stays in place. *)
Example save_stops_in_json_dump :
  let user_dir := of_string "/srv/annotations/ann" in
  let path := json_path_for user_dir col_default_model 0 in
  let dumps := fun _ : @pyobj unit =>
                 (of_string "{ notes: ", Some UnicodeEncodeError) in
  let w := {| files := {[ path := of_string "{old}" ]};
              plan := []; log := [] |} in
  let out :=
    save_annotations (fun _ => []) dumps user_dir col_default_model 0
      (ODict [(OStr key_notes, OStr [55357%N])]) w in
  out.1 = Raise UnicodeEncodeError
  /\ files out.2 !! path = Some (of_string "{old}")
  /\ files out.2 !! (path ++ tmp_suffix) = Some (of_string "{ notes: ").
Proof. vm_compute. done. Qed.

End Samples.

(** * Further properties *)

(** ** More on trimming and on the tokenizer *)

Section MoreTokens.
Implicit Types s text : list N.

Lemma lstrip_lstrip s : lstrip (lstrip s) = lstrip s.
Proof.
  apply lstrip_fixed. destruct (lstrip s) as [|c r] eqn:E; [done|].
  by apply lstrip_head in E.
Qed.

Lemma strip_strip s : strip (strip s) = strip s.
Proof.
  unfold strip.
  assert (lstrip (rstrip (lstrip s)) = rstrip (lstrip s)) as ->.
  { apply lstrip_fixed. destruct (rstrip (lstrip s)) as [|c r] eqn:E; [done|].
    destruct (rstrip_prefix (lstrip s)) as [q Hq]. rewrite E in Hq.
    by apply lstrip_head in Hq. }
  unfold rstrip. by rewrite rev_involutive, lstrip_lstrip.
Qed.

(** What holds of every character of a text holds of those left after
    trimming. *)
Lemma strip_Forall (P : N -> Prop) s : Forall P s -> Forall P (strip s).
Proof.
  intros H. unfold strip.
  destruct (lstrip_suffix s) as [p Hp].
  destruct (rstrip_prefix (lstrip s)) as [q Hq].
  rewrite Hp, Hq in H. apply Forall_app in H as [_ H].
  by apply Forall_app in H as [H _].
Qed.

(** A text without a bracket pair has no tags. *)
Lemma no_pairs_no_tags s :
  (forall i j, ~ is_pair s i j) -> finditer s = [].
Proof.
  intros H. destruct (finditer s) as [|m r] eqn:E; [done|]. exfalso.
  apply (H (m_start m) (m_end m)), finditer_pairs.
  exists m. rewrite E. split; [apply list_elem_of_here|done].
Qed.

Lemma extract_tags_elem s t :
  t ∈ extract_tags (PyStr s) ->
  exists k m, finditer s !! k = Some m /\ t_idx t = S k
              /\ t_text t = strip (m_group1 m)
              /\ t_start t = m_start m /\ t_end t = m_end m.
Proof.
  rewrite extract_tags_str. intros [k Hk]%list_elem_of_lookup.
  rewrite tags_of_matches_lookup in Hk.
  destruct (finditer s !! k) as [m|] eqn:Hm; [|done].
  injection Hk as <-. by exists k, m.
Qed.

Lemma tags_wellformed s :
  Forall (fun t =>
            t_start t + 3 <= t_end t /\ t_end t <= length s
            /\ 1 <= t_idx t <= length (extract_tags (PyStr s))
            /\ Forall (fun c => nonbracket c = true) (t_text t)
            /\ strip (t_text t) = t_text t
            /\ length (t_text t) + 2 <= t_end t - t_start t)
    (extract_tags (PyStr s)).
Proof.
  apply Forall_forall. intros t Ht.
  destruct (extract_tags_elem s t Ht) as (k & m & Hm & -> & -> & -> & ->).
  assert (m ∈ finditer s) as Hin by (apply list_elem_of_lookup; eauto).
  destruct (chain_elem _ _ _ m (finditer_chain s) Hin) as (_ & Hp & Hg).
  destruct (pair_match _ _ _ Hp) as (_ & _ & Hnb & Hlen).
  rewrite <- Hg in Hnb, Hlen.
  pose proof (is_pair_bounds _ _ _ Hp) as [_ Hend].
  destruct Hp as (_ & Hlt & _).
  pose proof (strip_length (m_group1 m)).
  apply lookup_lt_Some in Hm.
  rewrite extract_tags_str, length_tags_of_matches.
  split_and!; try lia.
  - apply strip_Forall, Forall_forall. intros c Hc.
    rewrite forallb_forall in Hnb. by apply Hnb, list_elem_of_In.
  - apply strip_strip.
Qed.

(** X1: every tag lies within the text, spans at least three characters,
    has an index between one and the number of tags, and its text holds
    no bracket, no leading or trailing whitespace, and fits between the
    brackets (it may be empty). *)
Theorem extract_tags_wellformed s :
  Forall (fun t =>
            t_start t + 3 <= t_end t /\ t_end t <= length s
            /\ 1 <= t_idx t <= length (extract_tags (PyStr s))
            /\ Forall (fun c => nonbracket c = true) (t_text t)
            /\ strip (t_text t) = t_text t
            /\ length (t_text t) + 2 <= t_end t - t_start t)
    (extract_tags (PyStr s)).
Proof. apply tags_wellformed. Qed.


Lemma is_pair_has_brackets s i j : is_pair s i j -> lbracket ∈ s /\ rbracket ∈ s.
Proof.
  intros (Hl & _ & Hr & _). split; apply list_elem_of_lookup; eauto.
Qed.

(** X2: a text that lacks an opening bracket, or a closing one, has no
    tags: [extract_tags] gives the empty list, the stream is the single
    text segment with the whole text, and the count is zero. *)
Theorem no_bracket_no_tags s :
  lbracket ∉ s \/ rbracket ∉ s ->
  extract_tags (PyStr s) = []
  /\ build_inline_stream (PyStr s) = [SegText s]
  /\ count_tags_in_text (PyStr s) = 0.
Proof.
  intros H.
  assert (finditer s = []) as E.
  { apply no_pairs_no_tags. intros i j [? ?]%is_pair_has_brackets. tauto. }
  assert (extract_tags (PyStr s) = []) as T by (by rewrite extract_tags_str, E).
  split_and!; [done| |].
  - by rewrite build_inline_stream_str, T.
  - simpl. unfold findall. by rewrite E.
Qed.

Lemma no_bracket_no_tags_witness :
  extract_tags (PyStr (of_string "a ] b")) = []
  /\ build_inline_stream (PyStr (of_string "a ] b"))
     = [SegText (of_string "a ] b")]
  /\ count_tags_in_text (PyStr (of_string "a ] b")) = 0.
Proof.
  apply no_bracket_no_tags. left. vm_compute.
  intros H. repeat (apply elem_of_cons in H as [H|H]; [discriminate H|]).
  by apply elem_of_nil in H.
Defined.

(** A bracket pair of a slice is a bracket pair of the text. *)
Lemma is_pair_slice text a b i j :
  is_pair (slice text a b) i j -> is_pair text (a + i) (a + j) /\ a + j <= b.
Proof.
  assert (forall k c, slice text a b !! k = Some c ->
                      text !! (a + k) = Some c /\ k < b - a) as L.
  { intros k c Hk. unfold slice in Hk.
    apply lookup_take_Some in Hk as [Hk ?]. by rewrite lookup_drop in Hk. }
  intros (Hl & Hlt & Hr & Hin).
  destruct (L _ _ Hl) as [Hl' _]. destruct (L _ _ Hr) as [Hr' Hj].
  split; [|lia]. split_and!; [done|lia| |].
  - by replace (a + j - 1) with (a + (j - 1)) by lia.
  - intros k Hk. destruct (Hin (k - a)) as (c & Hc & Hnb); [lia|].
    destruct (L _ _ Hc) as [Hc' _]. exists c. split; [|done].
    by replace k with (a + (k - a)) by lia.
Qed.

Lemma drop_as_slice text a : drop a text = slice text a (length text).
Proof. unfold slice. by rewrite take_ge by (rewrite length_drop; lia). Qed.

(** Between the matches of a complete chain no bracket pair is left. *)
Lemma code_segments_clean text i ms last c :
  chain text last ms ->
  (forall x y, is_pair text x y -> last <= x ->
     exists m, m ∈ ms /\ m_start m = x /\ m_end m = y) ->
  SegText c ∈ code_segments text last (tags_of_matches i ms) ->
  forall x y, ~ is_pair c x y.
Proof.
  revert i last. induction ms as [|m r IH]; intros i last Hc Hall.
  - simpl. destruct (Nat.ltb_spec last (length text)); [|by intros ?%elem_of_nil].
    intros [= ->]%list_elem_of_singleton x y Hp.
    rewrite drop_as_slice in Hp. apply is_pair_slice in Hp as [Hp _].
    destruct (Hall _ _ Hp) as (m & Hm & _); [lia|]. by apply elem_of_nil in Hm.
  - pose proof (chain_head_bounds _ _ _ _ Hc) as (H1 & H2 & H3).
    assert (forall m', m' ∈ r -> m_end m <= m_start m') as Hafter.
    { intros m' [k Hk]%list_elem_of_lookup.
      by apply (chain_sorted text last (m :: r) 0 (S k) m m'); [|lia| |]. }
    destruct Hc as (_ & _ & _ & _ & _ & Hr).
    cbn [tags_of_matches code_segments t_start t_end t_text t_idx].
    intros [Hin|Hin]%elem_of_app.
    + destruct (Nat.ltb_spec last (m_start m)); [|by apply elem_of_nil in Hin].
      apply list_elem_of_singleton in Hin as [= ->]. intros x y Hp.
      apply is_pair_slice in Hp as [Hp Hy].
      pose proof (is_pair_bounds _ _ _ Hp) as [Hxy _].
      destruct (Hall _ _ Hp) as (m' & [->|Hm']%elem_of_cons & Hs & He); [lia|lia|].
      specialize (Hafter m' Hm'). lia.
    + apply elem_of_cons in Hin as [?|Hin]; [done|].
      apply (IH (S i) (m_end m) Hr); [|done].
      intros x y Hp Hx.
      destruct (Hall _ _ Hp) as (m' & [->|Hm']%elem_of_cons & Hs & He); [lia|lia|].
      by exists m'.
Qed.

(** X3: no segment of a stream holds a tag of its own: tokenizing the
    content of any segment, text or tag, gives no tag. *)
Theorem stream_segments_hold_no_tag s :
  Forall (fun g => extract_tags (PyStr (seg_content g)) = [])
    (build_inline_stream (PyStr s)).
Proof.
  apply Forall_forall. intros g Hg.
  assert (forall c, (forall x y, ~ is_pair c x y) -> extract_tags (PyStr c) = [])
    as Hclean.
  { intros c Hc. by rewrite extract_tags_str, no_pairs_no_tags. }
  rewrite build_inline_stream_str in Hg.
  destruct (extract_tags (PyStr s)) as [|t0 r0] eqn:E.
  { apply list_elem_of_singleton in Hg as ->. exact E. }
  rewrite <- E in Hg. clear E t0 r0. destruct g as [c|c idx]; simpl.
  - apply Hclean. rewrite extract_tags_str in Hg.
    apply (code_segments_clean s 1 (finditer s) 0 c); [apply finditer_chain| |done].
    intros x y Hp _. by apply finditer_pairs.
  - assert (SegTag c idx ∈ tag_segments (code_segments s 0 (extract_tags (PyStr s))))
      as Hin by (by apply list_elem_of_filter).
    rewrite code_segments_tags in Hin.
    apply list_elem_of_fmap in Hin as (t & [= -> ->] & Ht).
    pose proof (tags_wellformed s) as W.
    rewrite Forall_forall in W. destruct (W t Ht) as (_ & _ & _ & Hnb & _).
    apply Hclean. intros x y (Hl & _).
    rewrite Forall_forall in Hnb.
    assert (nonbracket lbracket = true) as Hb; [|discriminate Hb].
    apply Hnb, list_elem_of_lookup. eauto.
Qed.

Lemma code_segments_size text last tags :
  length tags <= length (code_segments text last tags) <= 2 * length tags + 1.
Proof.
  revert last. induction tags as [|t r IH]; intros last; simpl.
  - destruct (last <? length text); simpl; lia.
  - specialize (IH (t_end t)). rewrite length_app. simpl.
    destruct (last <? t_start t); simpl; lia.
Qed.

(** X4: a stream is never empty; with [K] tags it has at least [K] and at
    most [2K + 1] segments. *)
Theorem build_inline_stream_size (v : pyval) :
  let k := length (extract_tags v) in
  let n := length (build_inline_stream v) in
  1 <= n /\ k <= n <= 2 * k + 1.
Proof.
  assert (forall s, let k := length (extract_tags (PyStr s)) in
                    let n := length (build_inline_stream (PyStr s)) in
                    1 <= n /\ k <= n <= 2 * k + 1) as Hs.
  { intros s k n. subst k n. rewrite build_inline_stream_str.
    destruct (extract_tags (PyStr s)) as [|t r] eqn:E; [simpl; lia|].
    pose proof (code_segments_size s 0 (t :: r)). simpl in *. lia. }
  destruct v as [|s| |z]; [|apply Hs| |]; simpl; lia.
Qed.

(** X5: for any cell value, string or not, the number of tags that
    [extract_tags] returns, the number of tag segments of the stream and
    the count of [count_tags_in_text] are the same number. *)
Theorem tag_counts_agree_any_value (v : pyval) :
  length (extract_tags v) = count_tags_in_text v
  /\ length (tag_segments (build_inline_stream v)) = count_tags_in_text v.
Proof.
  destruct v as [|s| |z]; try done.
  assert (length (extract_tags (PyStr s)) = count_tags_in_text (PyStr s)) as E.
  { rewrite extract_tags_str, length_tags_of_matches. simpl. unfold findall.
    by rewrite length_fmap. }
  split; [done|]. rewrite <- E, build_inline_stream_str.
  destruct (extract_tags (PyStr s)) as [|t r] eqn:Ht; [done|].
  by rewrite code_segments_tags, length_fmap.
Qed.

End MoreTokens.

(** ** More on paths and on the store *)

Section MorePaths.
Implicit Types d m : list N.

Lemma of_string_inj a b : of_string a = of_string b -> a = b.
Proof.
  revert b. induction a as [|x a IH]; intros [|y b]; simpl; try done.
  intros [= Hxy Hab]. f_equal; [|by apply IH].
  rewrite <- (ascii_N_embedding x), <- (ascii_N_embedding y). by f_equal.
Qed.

Lemma to_uint_not_Nil n : Nat.to_uint n <> Decimal.Nil.
Proof.
  intros E. assert (n = 0) as ->.
  { rewrite <- (DecimalNat.Unsigned.of_to n), E. reflexivity. }
  discriminate E.
Qed.

(** Two numbers with the same decimal text are the same. *)
Lemma of_nat_inj n n' : of_nat n = of_nat n' -> n = n'.
Proof.
  unfold of_nat. intros E%of_string_inj.
  apply DecimalNat.Unsigned.to_uint_inj.
  assert (Some (Nat.to_uint n) = Some (Nat.to_uint n')) as [= ->]; [|done].
  rewrite <- !NilZero.usu by apply to_uint_not_Nil. by rewrite E.
Qed.

Lemma json_path_for_split d m i :
  json_path_for d m i
  = record_dir d m ++ of_string "T" ++ of_nat (i + 1) ++ of_string ".json".
Proof.
  unfold json_path_for, Path.join, record_dir. simpl foldl.
  unfold Path.join2 at 1. cbn [Path.startswith_sep app of_string].
  change (N_of_ascii "T" =? Path.sep)%N with false. cbv iota.
  destruct (match Path.join2 d m with [] => true | _ => _ end); [done|].
  by rewrite <- app_assoc.
Qed.

Lemma json_path_for_last d m i : last (json_path_for d m i) = Some 110%N.
Proof.
  rewrite json_path_for_split, !app_assoc.
  change (of_string ".json") with (of_string ".jso" ++ [110%N]).
  by rewrite app_assoc, last_snoc.
Qed.

Lemma sep_free_split (a b x y : list N) :
  Path.sep ∉ a -> Path.sep ∉ b ->
  a ++ [Path.sep] ++ x = b ++ [Path.sep] ++ y -> a = b /\ x = y.
Proof.
  revert b. induction a as [|c a IH]; intros [|e b] Ha Hb; simpl.
  - by intros [= ->].
  - intros [= <- _]. exfalso. apply Hb, list_elem_of_here.
  - intros [= -> _]. exfalso. apply Ha, list_elem_of_here.
  - intros [= -> E]. destruct (IH b) as [-> ->]; [| |done|done].
    + intros H. by apply Ha, list_elem_of_further.
    + intros H. by apply Hb, list_elem_of_further.
Qed.

Lemma record_dir_sep_free d m :
  m <> [] -> Path.sep ∉ m ->
  exists p, (forall m', m' <> [] -> Path.sep ∉ m' ->
               record_dir d m' = p ++ m' ++ [Path.sep])
            /\ record_dir d m = p ++ m ++ [Path.sep].
Proof.
  intros Hm Hs.
  exists (if match d with [] => true | _ => Path.endswith_sep d end
          then d else d ++ [Path.sep]).
  assert (forall m', m' <> [] -> Path.sep ∉ m' ->
            record_dir d m'
            = (if match d with [] => true | _ => Path.endswith_sep d end
               then d else d ++ [Path.sep]) ++ m' ++ [Path.sep]) as G.
  2:{ split; [exact G|]. apply G; done. }
  intros m' Hne Hsep. unfold record_dir, Path.join2.
  assert (Path.startswith_sep m' = false) as ->.
  { destruct m' as [|c r]; [done|]. simpl.
    destruct (N.eqb_spec c Path.sep) as [->|]; [|done].
    exfalso. apply Hsep, list_elem_of_here. }
  assert (forall q, Path.endswith_sep (q ++ m') = false) as Hend.
  { intros q. unfold Path.endswith_sep.
    destruct (exists_last Hne) as (r & c & ->).
    rewrite app_assoc, last_snoc.
    destruct (N.eqb_spec c Path.sep) as [->|]; [|done].
    exfalso. apply Hsep. apply elem_of_app. right. apply list_elem_of_here. }
  destruct (match d with [] => true | _ => Path.endswith_sep d end).
  - destruct (d ++ m') eqn:E; [by destruct d, m'|]. rewrite <- E.
    by rewrite Hend, <- app_assoc.
  - change (d ++ Path.sep :: m') with (d ++ [Path.sep] ++ m').
    rewrite app_assoc.
    destruct ((d ++ [Path.sep]) ++ m') eqn:E; [by destruct d|]. rewrite <- E.
    by rewrite Hend, <- !app_assoc.
Qed.

Lemma json_path_for_row_inj d m i j :
  json_path_for d m i = json_path_for d m j -> i = j.
Proof.
  rewrite !json_path_for_split.
  intros E%app_inv_head%app_inv_head%app_inv_tail%of_nat_inj. lia.
Qed.

Lemma json_path_for_not_tmp d m i (q : list N) :
  json_path_for d m i <> q ++ tmp_suffix.
Proof.
  intros E. apply (f_equal last) in E. rewrite json_path_for_last in E.
  change tmp_suffix with (of_string ".tm" ++ [112%N]) in E.
  by rewrite app_assoc, last_snoc in E.
Qed.

Lemma json_path_for_not_corrupt d m i (q : list N) :
  json_path_for d m i <> q ++ corrupt_suffix.
Proof.
  intros E. apply (f_equal last) in E. rewrite json_path_for_last in E.
  change corrupt_suffix with (of_string ".corrup" ++ [116%N]) in E.
  by rewrite app_assoc, last_snoc in E.
Qed.

(** X6: the records of a user are kept apart by their paths: two rows of
    a model have different paths; so have two different models whose
    names are not empty and hold no separator; and the path of a record is
    never the temporary or the quarantine path of a record. *)
Theorem json_path_for_apart d d' m m' i j :
  (json_path_for d m i = json_path_for d m j <-> i = j)
  /\ (m <> [] -> m' <> [] -> Path.sep ∉ m -> Path.sep ∉ m' ->
        json_path_for d m i = json_path_for d m' j -> m = m' /\ i = j)
  /\ json_path_for d m i <> json_path_for d' m' j ++ tmp_suffix
  /\ json_path_for d m i <> json_path_for d' m' j ++ corrupt_suffix.
Proof.
  split_and!.
  - split; [apply json_path_for_row_inj|by intros ->].
  - intros Hm Hm' Hs Hs'. rewrite !json_path_for_split.
    destruct (record_dir_sep_free d m Hm Hs) as (p & G & ->).
    rewrite (G m' Hm' Hs'), <- !app_assoc.
    intros E%app_inv_head.
    apply sep_free_split in E as [-> E]; [|done|done].
    split; [done|]. apply app_inv_head, app_inv_tail, of_nat_inj in E. lia.
  - apply json_path_for_not_tmp.
  - apply json_path_for_not_corrupt.
Qed.

End MorePaths.

Section MoreStore.
Context {F J : Type} (str_other : @pyobj F -> list N)
  (json_dumps : @pyobj F -> list N * option exn)
  (json_loads : list N -> result J) (empty_dict : J).
Implicit Types path user_dir model : list N.

Lemma save_frame_run (path tmp new : list N) (stop : option exn) fs pl lg :
  tmp <> path ->
  let out :=
    (with_open (open_write tmp) tmp
       ((write tmp new;;
         match stop with None => mret tt | Some e => raise e end);;
        flush tmp;; os_fsync tmp);;
     os_replace tmp path) {| files := fs; plan := pl; log := lg |} in
  (forall q, q <> path -> q <> tmp -> files out.2 !! q = fs !! q)
  /\ (out.1 = Ok tt -> files out.2 !! tmp = None).
Proof.
  intros Hne out. subst out. destruct stop as [x|]; run.
  all: repeat (first [next_plan | rewrite lookup_insert_eq]; run).
  all: split; [intros q Hq1 Hq2|intros Hok; try discriminate Hok].
  all: rewrite ?lookup_insert_ne by done;
       rewrite ?lookup_delete_ne by done;
       rewrite ?lookup_insert_ne by done; try done.
  all: by rewrite lookup_delete_eq.
Qed.

(** X7: a save changes the target and its temporary file and nothing
    else: every other path holds what it held, in particular the record
    of any other row or model; and after a save that succeeded no
    temporary file is left. *)
Theorem save_annotations_frame user_dir model row_index p w :
  let path := json_path_for user_dir model row_index in
  let tmp := path ++ tmp_suffix in
  let out := save_annotations str_other json_dumps user_dir model row_index p w in
  (forall q, q <> path -> q <> tmp -> files out.2 !! q = files w !! q)
  /\ (forall d m j, json_path_for d m j <> path ->
        files out.2 !! json_path_for d m j = files w !! json_path_for d m j)
  /\ (forall j, j <> row_index ->
        files out.2 !! json_path_for user_dir model j
        = files w !! json_path_for user_dir model j)
  /\ (out.1 = Ok tt -> files out.2 !! tmp = None).
Proof.
  intros path tmp out.
  assert (tmp <> path) as Hne by (by apply suffix_differs).
  destruct w as [fs pl lg].
  destruct (save_frame_run path tmp (json_dumps (_to_jsonable str_other p)).1
              (json_dumps (_to_jsonable str_other p)).2 fs pl lg Hne)
    as [H1 H2].
  assert (forall d m j, json_path_for d m j <> path ->
            files out.2 !! json_path_for d m j = fs !! json_path_for d m j) as H3.
  { intros d m j Hd. apply H1; [done|]. apply json_path_for_not_tmp. }
  split_and!; [exact H1|exact H3| |exact H2].
  intros j Hj. apply H3. by intros E%json_path_for_row_inj.
Qed.

(** X8: a save followed by a load of the same record gives back what was
    saved: when the system calls succeed, [json.dump] writes the whole
    text of the normalised payload and that text is JSON, the load returns
    the value that text stands for, and the record holds that text. *)
Theorem save_then_load_round_trip user_dir model row_index p text v w :
  Forall (fun o => o = Succeeds) (take 10 (plan w)) ->
  json_dumps (_to_jsonable str_other p) = (text, None) ->
  text <> [] -> json_loads text = Ok v ->
  let out :=
    (save_annotations str_other json_dumps user_dir model row_index p;;
     load_existing_annotations json_loads empty_dict user_dir model row_index)
      w in
  out.1 = Ok v
  /\ files out.2 !! json_path_for user_dir model row_index = Some text.
Proof.
  intros Hplan Hd Hne Hv out. subst out.
  unfold save_annotations, load_existing_annotations, json_dump.
  rewrite Hd. cbn [fst snd].
  assert (json_path_for user_dir model row_index ++ tmp_suffix
          <> json_path_for user_dir model row_index) as Htmp
    by (by apply suffix_differs).
  set (path := json_path_for user_dir model row_index) in *.
  clearbody path.
  destruct w as [fs pl lg]. cbn [plan] in Hplan.
  destruct text as [|c new]; [done|].
  run.
  repeat (first [ next_plan
                | rewrite lookup_insert_eq
                | rewrite bool_decide_eq_true_2 by eauto
                | rewrite Hv ];
          run; cbn [length Nat.eqb];
          try (exfalso; simpl in Hplan;
               repeat (apply Forall_cons_1 in Hplan as [? Hplan]);
               discriminate)).
  all: split; [done|].
  all: by rewrite ?lookup_insert_eq.
Qed.

End MoreStore.

Lemma save_then_load_round_trip_witness :
  let p := payload_obj tt
             {| annotator := Some (of_string "ann");
                p_model := Some col_default_model;
                row_index := Some 0%Z; transcript_no := Some 1%Z;
                title := PyNone; stance := PyNone; items := [];
                notes := of_string "ok"; saved_at := [] |} in
  let out :=
    (save_annotations (fun _ => []) sample_dumps sample_base
       col_default_model 0 p;;
     load_existing_annotations sample_loads [] sample_base col_default_model 0)
      sample_world in
  out.1 = Ok (of_string "{ok}")
  /\ files out.2 !! json_path_for sample_base col_default_model 0
     = Some (of_string "{ok}").
Proof.
  intros p.
  apply (save_then_load_round_trip (fun _ => []) sample_dumps sample_loads []
           sample_base col_default_model 0 p (of_string "{ok}")
           (of_string "{ok}") sample_world).
  - apply Forall_nil_2.
  - reflexivity.
  - discriminate.
  - reflexivity.
Defined.

(** ** More on the handlers *)

(** One step of a proof that a computation attempts operations of one
    kind only. *)
Ltac touches_auto :=
  first
    [ apply touches_ret | apply touches_raise | apply touches_next_outcome
    | apply touches_get_files | apply touches_lift
    | apply touches_commit | apply touches_syscall | apply touches_closing
    | apply touches_try_except | apply touches_bind
    | match goal with
      | |- forall _, _ => intro
      | |- touches _ (match ?o with _ => _ end) => destruct o
      end ].

Section MoreDirs.
Implicit Types d : list N.

Lemma syscall_run op fs pl lg :
  syscall op {| files := fs; plan := pl; log := lg |}
  = (match pl with Fails _ :: _ => Raise OSError | _ => Ok tt end,
     {| files := fs; plan := drop 1 pl; log := lg ++ [(op, fs)] |}).
Proof. by destruct pl as [|[|k] pl]. Qed.

Lemma bind_run {A B} (m : M A) (f : A -> M B) w :
  (m ≫= f) w
  = match m w with (Ok a, w') => f a w' | (Raise e, w') => (Raise e, w') end.
Proof. reflexivity. Qed.

(** The loop over the models: it stops at the first call that fails. *)
Lemma makedirs_each_run d ms fs pl lg :
  let out := makedirs_each d ms {| files := fs; plan := pl; log := lg |} in
  let dirs := (fun m => Path.join d [m]) <$> ms in
  exists n, n <= length ms
    /\ out.2 = {| files := fs; plan := drop n pl;
                  log := lg ++ ((fun p => (OpMakedirs p, fs)) <$> take n dirs) |}
    /\ (out.1 = Ok tt /\ n = length ms
        /\ Forall (fun o => o = Succeeds) (take n pl)
        \/ out.1 = Raise OSError /\ 0 < n
           /\ Forall (fun o => o = Succeeds) (take (n - 1) pl)
           /\ exists k, pl !! (n - 1) = Some (Fails k)).
Proof.
  revert pl lg. induction ms as [|m r IH]; intros pl lg out dirs; subst out dirs.
  { exists 0. simpl. rewrite app_nil_r, drop_0. split_and!; [done|done|].
    left. split_and!; [done|done|apply Forall_nil_2]. }
  cbn [makedirs_each]. rewrite bind_run. unfold os_makedirs.
  rewrite syscall_run.
  destruct pl as [|[|k] pl].
  - destruct (IH [] (lg ++ [(OpMakedirs (Path.join d [m]), fs)]))
      as (n & Hn & E & H).
    exists (S n). rewrite fmap_cons. cbn [take fmap list_fmap length].
    rewrite drop_nil in *. cbn [drop]. split_and!; [lia| |].
    + rewrite E. by rewrite <- app_assoc.
    + destruct H as [(-> & -> & _)|(-> & Hpos & _ & k & Hk)].
      * left. split_and!; [done|done|]. rewrite ?take_nil. apply Forall_nil_2.
      * by rewrite lookup_nil in Hk.
  - destruct (IH pl (lg ++ [(OpMakedirs (Path.join d [m]), fs)]))
      as (n & Hn & E & H).
    exists (S n). rewrite fmap_cons. cbn [take fmap list_fmap length drop].
    rewrite drop_0. split_and!; [lia| |].
    + rewrite E. by rewrite <- app_assoc.
    + destruct H as [(-> & -> & Hall)|(-> & Hpos & Hall & k & Hk)].
      * left. split_and!; [done|done|]. by apply Forall_cons_2.
      * right. replace (S n - 1) with (S (n - 1)) by lia.
        split_and!; [done|lia| |by exists k].
        cbn [take]. by apply Forall_cons_2.
  - exists 1. rewrite fmap_cons. cbn [take fmap list_fmap length drop].
    rewrite drop_0, take_0. split_and!; [lia|done|].
    right. split_and!; [done|lia|apply Forall_nil_2|by exists k].
Qed.

(** X9: [ensure_user_dirs] changes no file; it asks for the directory of
    the user, [base/sanitize_username(username)], then for one directory
    per model inside it, in order, and stops at the first call that fails:
    the calls it made are the first [n] of these, all but the last
    succeeded, and the last one failed when [OSError] is raised.  It
    returns the directory of the user exactly when all these calls
    succeed, and raises [OSError] otherwise. *)
Theorem ensure_user_dirs_creates base username (models : list (list N)) w :
  let user_dir := Path.join base [sanitize_username username] in
  let dirs := user_dir :: ((fun m => Path.join user_dir [m]) <$> models) in
  let out := ensure_user_dirs base username models w in
  files out.2 = files w
  /\ (exists n, 1 <= n <= length dirs
        /\ log out.2
           = log w ++ ((fun p => (OpMakedirs p, files w)) <$> take n dirs)
        /\ Forall (fun o => o = Succeeds) (take (n - 1) (plan w))
        /\ (out.1 = Ok user_dir /\ n = length dirs
            \/ out.1 = Raise OSError
               /\ exists k, plan w !! (n - 1) = Some (Fails k)))
  /\ (out.1 = Ok user_dir
      <-> Forall (fun o => o = Succeeds) (take (length dirs) (plan w)))
  /\ (out.1 = Ok user_dir \/ out.1 = Raise OSError).
Proof.
  intros user_dir dirs out. subst out dirs. destruct w as [fs pl lg].
  unfold ensure_user_dirs. fold user_dir. rewrite bind_run.
  unfold os_makedirs. rewrite syscall_run. cbn [files plan log length].
  destruct pl as [|[|k] pl]; cbn [drop]; rewrite ?drop_0.
  3:{ cbn [fst snd files log]. split_and!; [done| | |by right].
      - exists 1. rewrite length_fmap.
        split; [lia|]. split; [reflexivity|].
        split; [apply Forall_nil_2|]. right. split; [done|by exists k].
      - split; [done|]. cbn [take]. by intros [? _]%Forall_cons_1. }
  all: rewrite bind_run.
  all: match goal with
       | |- context [makedirs_each ?d ?ms {| files := ?f; plan := ?p; log := ?l |}] =>
           destruct (makedirs_each_run d ms f p l) as (n & Hn & E & H);
           destruct (makedirs_each d ms {| files := f; plan := p; log := l |})
             as [r w1]
       end; cbn [fst snd] in *; subst w1.
  all: destruct H as [(-> & -> & Hall)|(-> & Hpos & Hall & k & Hk)];
       cbn [fst snd files log mret M_ret].
  - split_and!; [done| | |by left].
    + exists (S (length models)). rewrite length_fmap.
      split; [lia|]. split; [|split; [|by left]].
      * cbn [take fmap list_fmap]. by rewrite <- app_assoc.
      * rewrite take_nil. apply Forall_nil_2.
    + split; [intros _|done]. rewrite ?take_nil. apply Forall_nil_2.
  - by rewrite lookup_nil in Hk.
  - split_and!; [done| | |by left].
    + exists (S (length models)). rewrite length_fmap.
      split; [lia|]. split; [|split; [|by left]].
      * cbn [take fmap list_fmap]. by rewrite <- app_assoc.
      * replace (S (length models) - 1) with (length models) by lia.
        destruct (length models) as [|j] eqn:El; [apply Forall_nil_2|].
        cbn [take]. apply Forall_cons_2; [done|].
        eapply Forall_take in Hall. rewrite take_take in Hall.
        replace (j `min` S j) with j in Hall by lia. exact Hall.
    + split; [intros _|done]. rewrite length_fmap. cbn [take].
      by apply Forall_cons_2.
  - split_and!; [done| | |by right].
    + exists (S n). rewrite length_fmap.
      split; [lia|]. split; [|split].
      * cbn [take fmap list_fmap]. by rewrite <- app_assoc.
      * replace (S n - 1) with (S (n - 1)) by lia. cbn [take].
        by apply Forall_cons_2.
      * right. split; [done|]. exists k.
        replace (S n - 1) with (S (n - 1)) by lia. exact Hk.
    + split; [done|]. rewrite length_fmap. cbn [take].
      intros [_ Hall']%Forall_cons_1. exfalso.
      rewrite Forall_lookup in Hall'.
      assert (take (length models) pl !! (n - 1) = Some (Fails k)) as Hk'
        by (rewrite lookup_take_lt by lia; done).
      by specialize (Hall' _ _ Hk').
Qed.

Lemma Forall_drop_succeeds n (pl : list outcome) :
  Forall (fun o => o = Succeeds) pl -> Forall (fun o => o = Succeeds) (drop n pl).
Proof. apply Forall_drop. Qed.

(** How [ensure_user_dirs] ends: with the directory of the user or with
    [OSError]; the first operation asks for that directory; when no call
    fails the directory is returned and no later call is planned to fail. *)
Lemma ensure_user_dirs_run base username (models : list (list N)) w :
  let user_dir := Path.join base [sanitize_username username] in
  let out := ensure_user_dirs base username models w in
  (out.1 = Ok user_dir \/ out.1 = Raise OSError)
  /\ files out.2 = files w
  /\ (exists entries,
        log out.2 = log w ++ (OpMakedirs user_dir, files w) :: entries)
  /\ (Forall (fun o => o = Succeeds) (plan w) ->
        out.1 = Ok user_dir /\ Forall (fun o => o = Succeeds) (plan out.2)).
Proof.
  intros user_dir out. subst out. destruct w as [fs pl lg].
  unfold ensure_user_dirs. fold user_dir. rewrite bind_run.
  unfold os_makedirs. rewrite syscall_run. cbn [files plan log].
  destruct pl as [|[|k] pl]; cbn [drop]; rewrite ?drop_0.
  3:{ cbn [fst snd files log plan]. split_and!; [by right|done|by exists []|].
      by intros [? _]%Forall_cons_1. }
  all: rewrite bind_run.
  all: match goal with
       | |- context [makedirs_each ?d ?ms {| files := ?f; plan := ?p; log := ?l |}] =>
           destruct (makedirs_each_run d ms f p l) as (n & Hn & E & H);
           destruct (makedirs_each d ms {| files := f; plan := p; log := l |})
             as [r w1]
       end; cbn [fst snd] in *; subst w1.
  all: destruct H as [(-> & -> & Hall)|(-> & Hpos & _ & k & Hk)];
       cbn [fst snd files log plan mret M_ret].
  all: split_and!; [by (left + right)|done| |].
  all: try (rewrite <- app_assoc; by eexists).
  - intros _. split; [done|]. rewrite drop_nil. apply Forall_nil_2.
  - by rewrite lookup_nil in Hk.
  - intros [_ H]%Forall_cons_1. split; [done|]. by apply Forall_drop.
  - intros [_ H]%Forall_cons_1. exfalso. rewrite Forall_lookup in H.
    by specialize (H _ _ Hk).
Qed.

End MoreDirs.

Section MoreHandlers.
Context {F J V : Type} (nan : F) (str_other : @pyobj F -> list N)
  (json_dumps : @pyobj F -> list N * option exn)
  (json_loads : list N -> result J) (empty_dict : J)
  (existing_view : J -> result V) (count_decided : J -> result nat)
  (int_of_str : list N -> option Z)
  (ANNOTATIONS_BASE : list N) (MODELS : list (list N))
  (DF : list (gmap (list N) pyval)).

(** X10: without a username in the session, [annotate] and [index]
    answer with the redirection to the sign-in page and [current_user_dir]
    with the empty path, and none of them touches the world. *)
Theorem handlers_need_session row_idx req w :
  truthy_opt (session_username req) = false ->
  annotate nan str_other json_dumps json_loads empty_dict existing_view int_of_str
    ANNOTATIONS_BASE MODELS DF row_idx req w = (Ok RedirectLogin, w)
  /\ index (V:=V) json_loads empty_dict count_decided
       ANNOTATIONS_BASE MODELS DF req w = (Ok RedirectLogin, w)
  /\ current_user_dir ANNOTATIONS_BASE MODELS req w = (Ok [], w).
Proof.
  intros H. unfold annotate, index, current_user_dir. rewrite H.
  split_and!; [done|done|].
  by destruct (session_username req) as [[|c u]|].
Qed.

(** X11: the redirection that ends a save stays within the data frame:
    from a row of the frame it leads to the index or to a row of the
    frame, which is the same row, the one before or the one after. *)
Theorem after_save_in_range req row_idx model :
  row_idx < length DF ->
  match after_save (V:=V) DF req row_idx model with
  | RedirectAnnotate r _ =>
      r < length DF /\ (r = row_idx \/ r + 1 = row_idx \/ r = row_idx + 1)
  | RedirectIndex _ => True
  | _ => False
  end.
Proof.
  intros H. unfold after_save.
  destruct (_ && (0 <? row_idx)) eqn:E1.
  { apply andb_prop in E1 as [_ ?%Nat.ltb_lt]. split; [lia|right; left; lia]. }
  destruct (_ && (_ <? _)%Z) eqn:E2.
  { apply andb_prop in E2 as [_ ?%Z.ltb_lt]. split; [lia|by right; right]. }
  destruct (bool_decide (_ = Some (of_string "index"))); [done|].
  destruct (bool_decide (_ = Some (of_string "switch_model")));
    (split; [lia|by left]).
Qed.

Lemma returns_index_row_of user_dir model i df_row :
  returns (fun r => ir_idx r = i /\ ir_display_no r = i + 1
                    /\ ir_title r = default (PyStr []) (df_row !! col_title)
                    /\ ir_stance r = default (PyStr []) (df_row !! col_stance)
                    /\ ir_total r
                       = count_tags_in_text (tagged_text_of df_row model))
    (index_row_of json_loads empty_dict count_decided user_dir model i df_row).
Proof.
  unfold index_row_of. apply returns_bind. intros existing.
  apply returns_bind. intros decided. by apply returns_ret.
Qed.

Lemma returns_index_rows user_dir model rows : forall i,
  returns (fun rs =>
             length rs = length rows
             /\ forall k r, rs !! k = Some r ->
                  exists df_row, rows !! k = Some df_row
                    /\ ir_idx r = i + k /\ ir_display_no r = i + k + 1
                    /\ ir_title r = default (PyStr []) (df_row !! col_title)
                    /\ ir_stance r = default (PyStr []) (df_row !! col_stance)
                    /\ ir_total r
                       = count_tags_in_text (tagged_text_of df_row model))
    (index_rows json_loads empty_dict count_decided user_dir model i rows).
Proof.
  induction rows as [|df_row rest IH]; intros i.
  { apply returns_ret. split; [done|]. by intros k r. }
  cbn [index_rows]. intros w rs. rewrite bind_run.
  pose proof (returns_index_row_of user_dir model i df_row w) as Hr.
  destruct (index_row_of _ _ _ _ _ _ _ w) as [[r|e] w1]; [|done].
  specialize (Hr r eq_refl). rewrite bind_run.
  pose proof (IH (S i) w1) as Hrs.
  destruct (index_rows _ _ _ _ _ _ _ w1) as [[rs'|e] w2]; [|done].
  specialize (Hrs rs' eq_refl) as [Hlen Hrs]. intros [= <-].
  split; [simpl; by rewrite Hlen|]. intros [|k] r'; simpl.
  - intros [= <-]. exists df_row. rewrite Nat.add_0_r. by destruct_and!.
  - intros Hk. destruct (Hrs k r' Hk) as (d & Hd & Hi & Hn & Hrest).
    exists d. split_and!; [done|lia|lia|apply Hrest..].
Qed.

(** X12: when [index] answers with the page, the page lists every row of
    the data frame once, in order: entry [k] has index [k], display number
    [k + 1], the title and the stance of row [k] (the empty string for
    one that the row lacks), and as its total the number of tags of the
    tagged text of row [k] for the model of the request. *)
Theorem index_lists_every_row req w resp :
  truthy_opt (session_username req) = true ->
  (index (V:=V) json_loads empty_dict count_decided
     ANNOTATIONS_BASE MODELS DF req w).1 = Ok resp ->
  exists rows,
    resp = RenderIndex (index_model MODELS req) rows
    /\ length rows = length DF
    /\ forall k r, rows !! k = Some r ->
         exists df_row, DF !! k = Some df_row
           /\ ir_idx r = k /\ ir_display_no r = k + 1
           /\ ir_title r = default (PyStr []) (df_row !! col_title)
           /\ ir_stance r = default (PyStr []) (df_row !! col_stance)
           /\ ir_total r
              = count_tags_in_text
                  (tagged_text_of df_row (index_model MODELS req)).
Proof.
  intros Hs. unfold index. rewrite Hs. cbn [negb]. rewrite bind_run.
  destruct (current_user_dir _ _ _ w) as [[d|e] w1]; [|done].
  rewrite bind_run.
  pose proof (returns_index_rows d (index_model MODELS req) DF 0 w1) as H.
  destruct (index_rows _ _ _ _ _ _ _ w1) as [[rows|e] w2]; [|done].
  specialize (H rows eq_refl) as [Hlen H]. intros [= <-].
  exists rows. split_and!; [done|done|]. intros k r Hk.
  destruct (H k r Hk) as (df_row & ? & ? & ? & ?). by exists df_row.
Qed.

Lemma touches_load_reads user_dir model row_index :
  touches (fun op => is_write_op op = false)
    (load_existing_annotations json_loads empty_dict user_dir model row_index).
Proof.
  unfold load_existing_annotations, with_open, open_read,
    json_load, read, os_replace, os_path_exists, os_path_getsize.
  repeat (touches_auto; try reflexivity).
Qed.

Lemma touches_current_user_dir_reads req :
  touches (fun op => is_write_op op = false)
    (current_user_dir ANNOTATIONS_BASE MODELS req).
Proof.
  unfold current_user_dir.
  destruct (session_username req) as [[|c u]|]; try apply touches_ret.
  unfold ensure_user_dirs, os_makedirs.
  apply touches_bind; [by apply touches_syscall|]. intros _.
  apply touches_bind; [|intros _; apply touches_ret].
  generalize (Path.join ANNOTATIONS_BASE [sanitize_username (c :: u)]).
  intros d. induction MODELS as [|m r IH]; simpl; [apply touches_ret|].
  apply touches_bind; [by apply touches_syscall|]. intros _. apply IH.
Qed.

Lemma touches_index_rows_reads user_dir model rows : forall i,
  touches (fun op => is_write_op op = false)
    (index_rows json_loads empty_dict count_decided user_dir model i rows).
Proof.
  induction rows as [|df_row rest IH]; intros i; [apply touches_ret|].
  cbn [index_rows]. apply touches_bind.
  - unfold index_row_of. apply touches_bind.
    + destruct model as [[|c m]|]; try apply touches_ret.
      apply touches_bind.
      * unfold os_path_exists. repeat (touches_auto; try reflexivity).
      * intros [|]; [apply touches_load_reads|apply touches_ret].
    + intros existing. repeat touches_auto.
  - intros r. apply touches_bind; [apply IH|]. intros rs. apply touches_ret.
Qed.

(** X13: showing a page never creates a file nor writes into one: no
    file operation of [index], and none of a [GET] of [annotate], opens a
    file for writing, writes, flushes or syncs. *)
Theorem pages_never_write row_idx req w :
  (exists entries,
      log (index (V:=V) json_loads empty_dict count_decided
             ANNOTATIONS_BASE MODELS DF req w).2 = log w ++ entries
      /\ Forall (fun e => is_write_op e.1 = false) entries)
  /\ (is_post req = false ->
      exists entries,
        log (annotate nan str_other json_dumps json_loads empty_dict existing_view
               int_of_str ANNOTATIONS_BASE MODELS DF row_idx req w).2
        = log w ++ entries
        /\ Forall (fun e => is_write_op e.1 = false) entries).
Proof.
  split.
  - revert w. change (touches (fun op => is_write_op op = false)
                        (index (V:=V) json_loads empty_dict count_decided
                           ANNOTATIONS_BASE MODELS DF req)).
    unfold index. destruct (negb _); [apply touches_ret|].
    apply touches_bind; [apply touches_current_user_dir_reads|]. intros d.
    apply touches_bind; [apply touches_index_rows_reads|]. intros rows.
    apply touches_ret.
  - intros Hget. revert w.
    change (touches (fun op => is_write_op op = false)
              (annotate nan str_other json_dumps json_loads empty_dict existing_view
                 int_of_str ANNOTATIONS_BASE MODELS DF row_idx req)).
    unfold annotate. rewrite Hget. destruct (negb _); [apply touches_ret|].
    destruct (DF !! row_idx); [|apply touches_raise].
    apply touches_bind; [apply touches_current_user_dir_reads|]. intros d.
    apply touches_bind.
    + unfold load_for. destruct (annotate_model MODELS req);
        [apply touches_load_reads|apply touches_raise].
    + intros existing. repeat touches_auto.
Qed.

Lemma save_annotations_succeeds user_dir model row_idx p w :
  Forall (fun o => o = Succeeds) (plan w) ->
  (json_dumps (_to_jsonable str_other p)).2 = None ->
  (save_annotations str_other json_dumps user_dir model row_idx p w).1 = Ok tt
  /\ files (save_annotations str_other json_dumps user_dir model row_idx p w).2
       !! json_path_for user_dir model row_idx
     = Some (json_dumps (_to_jsonable str_other p)).1.
Proof.
  intros Hplan Hstop. destruct w as [fs pl lg]. cbn [plan] in Hplan.
  destruct (save_run (json_path_for user_dir model row_idx)
              (json_path_for user_dir model row_idx ++ tmp_suffix)
              (json_dumps (_to_jsonable str_other p)).1
              (json_dumps (_to_jsonable str_other p)).2 fs pl lg)
    as (entries & _ & _ & Hm & Hiff);
    [by apply suffix_differs|].
  unfold save_annotations, json_dump.
  assert (Forall (fun o => o = Succeeds) (take 6 pl)) as Hok
    by (by apply Forall_take).
  apply (fun H => proj2 Hiff (conj Hstop H)) in Hok.
  rewrite Hok in Hm. by destruct Hm as (_ & _ & _ & ?).
Qed.

(** X14: a [POST] of [annotate] by a signed-in user, for a row of the
    data frame, with at least one known model, no failing system call and
    a payload that [json.dump] writes to its end, stores the payload built
    from the tags of the row for the model of the request: afterwards the
    file of that record in the directory of the user holds the text of
    that payload, normalised, and the answer is the redirection that the
    form asks for. *)
Theorem annotate_post_saves row_idx req df_row m w :
  let p := build_payload_inline int_of_str (session_username req) (Some m)
             row_idx
             (default (PyInt (Z.of_nat row_idx + 1))
                (df_row !! col_transcript_no))
             df_row (extract_tags (tagged_text_of df_row (Some m)))
             (form req) (default [] (form req !! key_notes)) (utcnow req) in
  let safe := _to_jsonable str_other (payload_obj nan p) in
  truthy_opt (session_username req) = true -> is_post req = true ->
  DF !! row_idx = Some df_row -> annotate_model MODELS req = Some m ->
  Forall (fun o => o = Succeeds) (plan w) ->
  (json_dumps safe).2 = None ->
  let out := annotate nan str_other json_dumps json_loads empty_dict
               existing_view int_of_str ANNOTATIONS_BASE MODELS DF row_idx
               req w in
  out.1 = Ok (after_save DF req row_idx (Some m))
  /\ files out.2
       !! json_path_for (session_user_dir ANNOTATIONS_BASE req) m row_idx
     = Some (json_dumps safe).1.
Proof.
  intros p safe Hs Hpost Hrow Hm Hplan Hstop out. subst out safe.
  unfold annotate. rewrite Hs, Hrow, Hpost, Hm. cbn [negb].
  unfold current_user_dir, session_user_dir.
  destruct (session_username req) as [[|c u]|] eqn:Hu; try done.
  rewrite bind_run.
  destruct (ensure_user_dirs_run ANNOTATIONS_BASE (c :: u) MODELS w)
    as (_ & _ & _ & Hok).
  destruct (Hok Hplan) as [Hr Hplan1].
  destruct (ensure_user_dirs ANNOTATIONS_BASE (c :: u) MODELS w) as [r w1].
  cbn [fst snd] in Hr, Hplan1. subst r. rewrite bind_run. unfold save_for.
  destruct (save_annotations_succeeds
              (Path.join ANNOTATIONS_BASE [sanitize_username (c :: u)])
              m row_idx (payload_obj nan p) w1 Hplan1 Hstop) as [Hres Hfile].
  fold p.
  destruct (save_annotations str_other json_dumps _ m row_idx
              (payload_obj nan p) w1) as [[[]|e] w2];
    [|done].
  done.
Qed.

(** X15: the items of a payload follow the tags, whatever the value that
    was tokenized: there are as many items as [count_tags_in_text]
    counts, item [i] has index [i + 1], the text of tag [i] and, as its
    decision, the form field [dec_tag_(i+1)] or nothing when the form has
    no such field; two different indexes never read the same field. *)
Theorem build_payload_inline_aligned (username model : option (list N))
    (row_idx : nat) (transcript : pyval) (df_row : gmap (list N) pyval)
    (v : pyval) (form_data : gmap (list N) (list N)) (notes_ now : list N) :
  let tags := extract_tags v in
  let its :=
    items (build_payload_inline int_of_str username model row_idx transcript
             df_row tags form_data notes_ now) in
  length its = count_tags_in_text v
  /\ (forall i it, its !! i = Some it ->
        tag_index it = S i
        /\ decision it = form_data !! decision_key (S i)
        /\ exists t, tags !! i = Some t /\ tag_text it = t_text t)
  /\ (forall i j, decision_key i = decision_key j <-> i = j).
Proof.
  intros tags its. subst its. cbn [items build_payload_inline].
  unfold build_items. split_and!.
  - rewrite length_fmap. subst tags. destruct v as [|s| |z]; try done.
    rewrite extract_tags_str, length_tags_of_matches. simpl. unfold findall.
    by rewrite length_fmap.
  - intros i it. rewrite list_lookup_fmap.
    destruct (tags !! i) as [t|] eqn:Ht; [|done]. intros [= <-].
    assert (t_idx t = S i) as ->.
    { subst tags. destruct v as [|s| |z]; try done.
      rewrite extract_tags_str, tags_of_matches_lookup in Ht.
      destruct (finditer s !! i); [|done]. by injection Ht as <-. }
    cbn. eauto.
  - intros i j. split; [|by intros ->]. unfold decision_key.
    by intros E%app_inv_head%of_nat_inj.
Qed.

End MoreHandlers.

Section MoreLogin.
Context (ANNOTATIONS_BASE : list N) (MODELS : list (list N)).

Lemma sanitize_username_strip x :
  sanitize_username (strip x) = sanitize_username x.
Proof. unfold sanitize_username. by rewrite strip_strip. Qed.

(** X16: [login] signs a user in only on a [POST] with a name that is not
    blank; the session then holds the sanitized name, which is not empty,
    the first file operation asks for the directory
    [base/sanitize_username(name)], and that is the directory that
    [current_user_dir] gives for the session afterwards.  In every other
    case the session is as before and the world untouched, or [OSError]
    is raised. *)
Theorem login_opens_session req w :
  let out := login ANNOTATIONS_BASE MODELS req w in
  let name := default [] (form req !! key_name) in
  let user_dir := Path.join ANNOTATIONS_BASE [sanitize_username name] in
  match out.1 with
  | Ok (LoginToIndex, s) =>
      is_post req = true /\ strip name <> []
      /\ s = Some (sanitize_username name)
      /\ truthy_opt s = true
      /\ session_user_dir ANNOTATIONS_BASE (with_session req s) = user_dir
      /\ files out.2 = files w
      /\ exists entries,
           log out.2 = log w ++ (OpMakedirs user_dir, files w) :: entries
  | Ok (LoginPage asks, s) =>
      s = session_username req /\ out.2 = w /\ asks = is_post req
      /\ (is_post req = true -> strip name = [])
  | Raise e => e = OSError /\ is_post req = true /\ strip name <> []
  end.
Proof.
  intros out name user_dir. subst out. unfold login. fold name.
  destruct (is_post req); [|done].
  destruct (strip name) as [|c r] eqn:E; [done|].
  rewrite bind_run. rewrite <- E.
  pose proof (ensure_user_dirs_run ANNOTATIONS_BASE
                (sanitize_username (strip name)) MODELS w) as H.
  cbv zeta in H.
  assert (sanitize_username (sanitize_username (strip name))
          = sanitize_username name) as Hfix.
  { rewrite sanitize_username_strip. apply sanitize_username_fixed;
      [apply sanitize_username_nonempty|apply sanitize_username_safe]. }
  rewrite Hfix in H. fold user_dir in H.
  destruct H as (Hres & Hfiles & Hlog & _).
  destruct (ensure_user_dirs _ _ _ w) as [res w1]. cbn [fst snd] in *.
  destruct Hres as [-> | ->]; cbn [fst snd mret M_ret].
  - rewrite sanitize_username_strip.
    pose proof (sanitize_username_nonempty name) as Hne.
    split_and!; try done.
    + rewrite E. done.
    + by destruct (sanitize_username name).
    + unfold session_user_dir, with_session. cbn [session_username].
      pose proof (sanitize_username_safe name) as Hsafe. unfold user_dir.
      destruct (sanitize_username name) as [|c' r']; [done|].
      do 2 f_equal. by apply sanitize_username_fixed.
  - split_and!; try done. by rewrite E.
Qed.

End MoreLogin.

Section HandlerWitnesses.

Lemma handlers_need_session_witness :
  let req := with_session (sample_request true col_default_model) None in
  sample_annotate 0 req sample_world = (Ok RedirectLogin, sample_world)
  /\ sample_index req sample_world = (Ok RedirectLogin, sample_world)
  /\ current_user_dir sample_base sample_models req sample_world
     = (Ok [], sample_world).
Proof.
  intros req.
  apply (handlers_need_session (V:=unit) tt (fun _ => []) sample_dumps
           sample_loads []
           (fun _ => Ok tt) (fun _ => Ok 0) (fun _ => None)
           sample_base sample_models sample_df 0 req sample_world).
  reflexivity.
Defined.

Lemma after_save_in_range_witness :
  match after_save (V:=unit) sample_df
          (sample_request true col_default_model) 0 (Some col_default_model)
  with
  | RedirectAnnotate r _ =>
      r < length sample_df /\ (r = 0 \/ r + 1 = 0 \/ r = 0 + 1)
  | RedirectIndex _ => True
  | _ => False
  end.
Proof.
  apply (after_save_in_range (V:=unit) sample_df
           (sample_request true col_default_model) 0 (Some col_default_model)).
  simpl. lia.
Defined.

Lemma index_lists_every_row_witness :
  exists rows,
    RenderIndex (V:=unit) (Some col_default_model)
      [ {| ir_idx := 0; ir_display_no := 1; ir_title := PyStr [];
           ir_stance := PyStr []; ir_decided := 0; ir_total := 1 |} ]
    = RenderIndex
        (index_model sample_models (sample_request false col_default_model))
        rows
    /\ length rows = length sample_df
    /\ forall k r, rows !! k = Some r ->
         exists df_row, sample_df !! k = Some df_row
           /\ ir_idx r = k /\ ir_display_no r = k + 1
           /\ ir_title r = default (PyStr []) (df_row !! col_title)
           /\ ir_stance r = default (PyStr []) (df_row !! col_stance)
           /\ ir_total r
              = count_tags_in_text
                  (tagged_text_of df_row
                     (index_model sample_models
                        (sample_request false col_default_model))).
Proof.
  apply (index_lists_every_row (V:=unit) sample_loads [] (fun _ => Ok 0)
           sample_base sample_models sample_df
           (sample_request false col_default_model) sample_world).
  - reflexivity.
  - vm_compute. reflexivity.
Defined.

Lemma annotate_post_saves_witness :
  let req := sample_request true col_default_model in
  let out := sample_annotate 0 req sample_world in
  out.1 = Ok (RedirectAnnotate 0 (Some col_default_model))
  /\ files out.2
       !! json_path_for (session_user_dir sample_base req) col_default_model 0
     = Some (of_string "{ok}").
Proof.
  intros req.
  apply (annotate_post_saves (V:=unit) tt (fun _ => []) sample_dumps
           sample_loads [] (fun _ => Ok tt) (fun _ => None) sample_base
           sample_models sample_df 0 req sample_row col_default_model
           sample_world);
    first [reflexivity | apply Forall_nil_2].
Defined.

End HandlerWitnesses.

(** ** The data frame and the known models *)

Section MoreData.
Implicit Types df sheet : dataframe.

Lemma str_le_trans : Transitive str_le.
Proof.
  unfold str_le. intros a. induction a as [|x a IH]; intros [|y b] [|z c];
    simpl; try done.
  intros [H1|[H1 H1']%andb_prop]%orb_prop [H2|[H2 H2']%andb_prop]%orb_prop.
  - apply N.ltb_lt in H1, H2. apply orb_true_intro. left. apply N.ltb_lt. lia.
  - apply N.ltb_lt in H1. apply N.eqb_eq in H2 as <-.
    apply orb_true_intro. left. by apply N.ltb_lt.
  - apply N.eqb_eq in H1 as <-. by rewrite H2.
  - apply N.eqb_eq in H1 as <-. rewrite H2, (IH b c H1' H2'). simpl.
    apply orb_true_r.
Qed.

Lemma str_le_total : Total str_le.
Proof.
  unfold str_le. intros a. induction a as [|x a IH]; intros [|y b];
    simpl; auto.
  destruct (N.lt_trichotomy x y) as [H|[->|H]].
  - left. apply N.ltb_lt in H. by rewrite H.
  - rewrite N.eqb_refl, N.ltb_irrefl. simpl. apply IH.
  - right. apply N.ltb_lt in H. by rewrite H.
Qed.

Lemma sorted_spec (l : list (list N)) :
  sorted l ≡ₚ l /\ StronglySorted str_le (sorted l).
Proof.
  split; [apply merge_sort_Permutation|].
  apply (@StronglySorted_merge_sort _ str_le _ str_le_trans str_le_total).
Qed.

Lemma model_order_models :
  Forall (fun c => endswith c model_suffix = true) model_order.
Proof. repeat constructor. Qed.

Lemma discover_models_elem df c :
  c ∈ discover_models df
  <-> c ∈ df_columns df /\ endswith c model_suffix = true.
Proof.
  unfold discover_models.
  set (candidates := filter _ (df_columns df)).
  assert (c ∈ candidates <-> c ∈ df_columns df /\ endswith c model_suffix = true)
    as <- by (unfold candidates; rewrite list_elem_of_filter; tauto).
  destruct (sorted_spec
              (filter (fun c => c ∉ filter (fun c => c ∈ candidates) model_order)
                 candidates)) as [Hperm _].
  rewrite elem_of_app, (elem_of_Permutation_proper _ _ _ Hperm).
  rewrite !list_elem_of_filter.
  destruct (decide (c ∈ model_order)); tauto.
Qed.

Lemma model_order_NoDup : NoDup model_order.
Proof.
  unfold model_order. apply NoDup_ListNoDup.
  repeat constructor; vm_compute; intuition discriminate.
Qed.

Lemma discover_models_split df :
  exists rest,
    discover_models df = filter (fun c => c ∈ df_columns df) model_order ++ rest
    /\ StronglySorted str_le rest
    /\ forall c, c ∈ rest -> c ∉ model_order.
Proof.
  unfold discover_models.
  set (candidates := filter _ (df_columns df)).
  set (ordered := filter (fun c => c ∈ candidates) model_order).
  assert (ordered = filter (fun c => c ∈ df_columns df) model_order) as <-.
  { unfold ordered. pose proof model_order_models as M.
    induction model_order as [|c r IH]; [done|].
    apply Forall_cons_1 in M as [Hc Hr].
    rewrite !filter_cons, (IH Hr).
    assert (c ∈ candidates <-> c ∈ df_columns df) as Hiff
      by (unfold candidates; rewrite list_elem_of_filter; tauto).
    destruct (decide (c ∈ candidates)), (decide (c ∈ df_columns df)); tauto. }
  exists (sorted (filter (fun c => c ∉ ordered) candidates)).
  destruct (sorted_spec (filter (fun c => c ∉ ordered) candidates))
    as [Hperm Hsorted].
  split_and!; [done|done|]. intros c.
  rewrite (elem_of_Permutation_proper _ _ _ Hperm).
  intros [Hno Hc]%list_elem_of_filter Hin. apply Hno.
  unfold ordered. by apply list_elem_of_filter.
Qed.

(** X17: [discover_models] returns exactly the columns whose label ends
    with [_layer2_annotations]: first those of the four known models that
    are columns, in the fixed order, then the others in ascending order;
    it repeats no label when the frame repeats none. *)
Theorem discover_models_spec df :
  let ms := discover_models df in
  (forall c, c ∈ ms <-> c ∈ df_columns df /\ endswith c model_suffix = true)
  /\ (exists rest,
        ms = filter (fun c => c ∈ df_columns df) model_order ++ rest
        /\ StronglySorted str_le rest
        /\ forall c, c ∈ rest -> c ∉ model_order)
  /\ (NoDup (df_columns df) -> NoDup ms).
Proof.
  intros ms. split_and!.
  - apply discover_models_elem.
  - apply discover_models_split.
  - intros Hnd. subst ms. unfold discover_models.
    set (candidates := filter _ (df_columns df)).
    set (ordered := filter (fun c => c ∈ candidates) model_order).
    destruct (sorted_spec (filter (fun c => c ∉ ordered) candidates))
      as [Hperm _].
    apply NoDup_app. split_and!.
    + apply NoDup_filter, model_order_NoDup.
    + intros c Hc. rewrite (elem_of_Permutation_proper _ _ _ Hperm).
      by intros [? _]%list_elem_of_filter.
    + rewrite Hperm. by do 2 apply NoDup_filter.
Qed.

(** *** Loading the sheet *)

Lemma filter_ext_in {A} (P Q : A -> Prop)
    `{!forall x, Decision (P x), !forall x, Decision (Q x)} (l : list A) :
  (forall x, x ∈ l -> P x <-> Q x) -> filter P l = filter Q l.
Proof.
  induction l as [|x l IH]; intros Hall; [done|].
  rewrite !filter_cons, IH
    by (intros y Hy; apply Hall; by apply list_elem_of_further).
  pose proof (Hall x (list_elem_of_here _ _)).
  destruct (decide (P x)), (decide (Q x)); tauto.
Qed.

Lemma filter_all_in {A} (P : A -> Prop) `{!forall x, Decision (P x)}
    (l : list A) :
  (forall x, x ∈ l -> P x) -> filter P l = l.
Proof.
  induction l as [|x l IH]; intros Hall; [done|].
  rewrite filter_cons, IH
    by (intros y Hy; apply Hall; by apply list_elem_of_further).
  rewrite decide_True; [done|]. apply Hall, list_elem_of_here.
Qed.

Lemma default_cols_NoDup : NoDup default_cols.
Proof.
  unfold default_cols. apply NoDup_ListNoDup.
  repeat constructor; vm_compute; intuition discriminate.
Qed.

(** The cells that the loop of [load_dataset] adds to a row. *)
Lemma ensure_columns_columns l df :
  NoDup l ->
  df_columns (foldl ensure_column df l)
  = df_columns df ++ filter (fun c => c ∉ df_columns df) l.
Proof.
  revert df. induction l as [|c l IH]; intros df Hnd; simpl.
  - by rewrite app_nil_r.
  - apply NoDup_cons in Hnd as [Hc Hnd]. rewrite (IH _ Hnd).
    unfold ensure_column. rewrite filter_cons.
    destruct (decide (c ∈ df_columns df)) as [Hin|Hin].
    + rewrite bool_decide_eq_true_2 by done.
      by destruct (decide (c ∉ df_columns df)).
    + rewrite bool_decide_eq_false_2 by done. simpl.
      destruct (decide (c ∉ df_columns df)); [|done].
      rewrite <- app_assoc. simpl. do 2 f_equal.
      apply filter_ext_in. intros x Hx.
      rewrite elem_of_app, list_elem_of_singleton.
      split; [tauto|]. intros Hn [?| ->]; tauto.
Qed.

Lemma ensure_columns_rows l df :
  NoDup l ->
  df_rows (foldl ensure_column df l)
  = (fun r => foldl (fun r c => <[c := PyNone]> r) r
                (filter (fun c => c ∉ df_columns df) l)) <$> df_rows df.
Proof.
  revert df. induction l as [|c l IH]; intros df Hnd; simpl.
  - by rewrite list_fmap_id.
  - apply NoDup_cons in Hnd as [Hc Hnd]. rewrite (IH _ Hnd).
    unfold ensure_column. rewrite filter_cons.
    destruct (decide (c ∈ df_columns df)) as [Hin|Hin].
    + rewrite bool_decide_eq_true_2 by done.
      by destruct (decide (c ∉ df_columns df)).
    + rewrite bool_decide_eq_false_2 by done. simpl.
      destruct (decide (c ∉ df_columns df)); [|done].
      rewrite <- list_fmap_compose. apply list_fmap_ext. intros _ r _. simpl.
      f_equal.
      apply filter_ext_in. intros x Hx.
      rewrite elem_of_app, list_elem_of_singleton.
      split; [tauto|]. intros Hn [?| ->]; tauto.
Qed.

Lemma lookup_set_none (l : list (list N)) (r : gmap (list N) pyval) c :
  foldl (fun r c => <[c := PyNone]> r) r l !! c
  = if decide (c ∈ l) then Some PyNone else r !! c.
Proof.
  revert r. induction l as [|x l IH]; intros r; simpl; [done|].
  rewrite IH. destruct (decide (c ∈ l)) as [Hin|Hin].
  - rewrite decide_True; [done|]. by apply list_elem_of_further.
  - destruct (decide (c = x)) as [->|Hne].
    + rewrite lookup_insert_eq. rewrite decide_True; [done|].
      apply list_elem_of_here.
    + rewrite lookup_insert_ne by done. rewrite decide_False; [done|].
      intros [?|?]%elem_of_cons; tauto.
Qed.

Lemma load_dataset_columns sheet :
  df_columns (load_dataset sheet)
  = df_columns sheet
    ++ filter (fun c => c ∉ df_columns sheet) default_cols.
Proof. apply ensure_columns_columns, default_cols_NoDup. Qed.

Lemma load_dataset_has_defaults sheet c :
  c ∈ default_cols -> c ∈ df_columns (load_dataset sheet).
Proof.
  intros Hc. rewrite load_dataset_columns, elem_of_app, list_elem_of_filter.
  destruct (decide (c ∈ df_columns sheet)); tauto.
Qed.

(** X18: [load_dataset] keeps the columns of the sheet, in their order,
    and puts after them the default columns that the sheet lacks, in the
    order of the list; it keeps the number of rows, and in each row the
    cells of the added columns are [None] and the other cells are as they
    were. *)
Theorem load_dataset_spec sheet :
  let df := load_dataset sheet in
  let added := filter (fun c => c ∉ df_columns sheet) default_cols in
  df_columns df = df_columns sheet ++ added
  /\ (forall c, c ∈ default_cols -> c ∈ df_columns df)
  /\ length (df_rows df) = length (df_rows sheet)
  /\ forall i c,
       (df_rows df !! i) ≫= (fun r => Some (r !! c))
       = (df_rows sheet !! i) ≫= (fun r =>
           Some (if decide (c ∈ added) then Some PyNone else r !! c)).
Proof.
  intros df added. subst df. split_and!.
  - apply load_dataset_columns.
  - apply load_dataset_has_defaults.
  - unfold load_dataset.
    rewrite (ensure_columns_rows _ _ default_cols_NoDup).
    apply length_fmap.
  - intros i c. unfold load_dataset.
    rewrite (ensure_columns_rows _ _ default_cols_NoDup), list_lookup_fmap.
    destruct (df_rows sheet !! i) as [r|]; simpl; [|done].
    by rewrite lookup_set_none.
Qed.

(** X19: a sheet that has every default column already is returned as it
    is: no column is added and no cell is changed. *)
Theorem load_dataset_complete_sheet sheet :
  (forall c, c ∈ default_cols -> c ∈ df_columns sheet) ->
  load_dataset sheet = sheet.
Proof.
  unfold load_dataset. revert sheet.
  induction default_cols as [|c l IH]; intros df Hall; simpl; [done|].
  unfold ensure_column at 2. rewrite bool_decide_eq_true_2.
  - apply IH. intros x Hx. apply Hall. by apply list_elem_of_further.
  - apply Hall, list_elem_of_here.
Qed.

Lemma discover_models_rest df :
  exists rest,
    discover_models df = filter (fun c => c ∈ df_columns df) model_order ++ rest
    /\ StronglySorted str_le rest
    /\ rest ≡ₚ filter (fun c => c ∉ filter (fun c => c ∈ df_columns df) model_order)
                 (filter (fun c => endswith c model_suffix = true)
                    (df_columns df)).
Proof.
  unfold discover_models.
  set (candidates := filter _ (df_columns df)).
  set (ordered := filter (fun c => c ∈ candidates) model_order).
  assert (ordered = filter (fun c => c ∈ df_columns df) model_order) as <-.
  { unfold ordered. apply filter_ext_in. intros c Hc.
    unfold candidates. rewrite list_elem_of_filter.
    pose proof model_order_models as M. rewrite Forall_forall in M.
    specialize (M c Hc). tauto. }
  exists (sorted (filter (fun c => c ∉ ordered) candidates)).
  destruct (sorted_spec (filter (fun c => c ∉ ordered) candidates))
    as [Hperm Hsorted].
  done.
Qed.

(** The default columns that are not known models are no model columns. *)
Lemma default_models_known :
  Forall (fun c => endswith c model_suffix = true -> c ∈ model_order)
    default_cols.
Proof.
  unfold default_cols, model_order.
  repeat (apply Forall_cons_2 || apply Forall_nil_2).
  all: first [ by (intros H; vm_compute in H)
             | intros _;
               repeat first [ apply list_elem_of_here
                            | apply list_elem_of_further ] ].
Qed.

(** X20: for a sheet whose column labels are strings, at startup
    ([MODELS = discover_models(load_dataset(...))]) the four known models
    come first, in the fixed order, and after them come the other columns
    of the sheet whose label ends with [_layer2_annotations], each as
    often as the sheet has it, in ascending order; so [MODELS] is not
    empty, and the model that [annotate] works with is always one of
    [MODELS]. *)
Theorem startup_models_known sheet (req : request) :
  let MODELS := discover_models (load_dataset sheet) in
  (exists rest,
      MODELS = model_order ++ rest
      /\ StronglySorted str_le rest
      /\ rest ≡ₚ filter (fun c => endswith c model_suffix = true
                                  /\ c ∉ model_order) (df_columns sheet))
  /\ exists m, annotate_model MODELS req = Some m /\ m ∈ MODELS.
Proof.
  intros MODELS.
  assert (filter (fun c => c ∈ df_columns (load_dataset sheet)) model_order
          = model_order) as Hall.
  { apply filter_all_in. intros c Hc. apply load_dataset_has_defaults.
    unfold default_cols, model_order in *.
    do 4 apply list_elem_of_further. exact Hc. }
  assert (exists rest,
             MODELS = model_order ++ rest
             /\ StronglySorted str_le rest
             /\ rest ≡ₚ filter (fun c => endswith c model_suffix = true
                                         /\ c ∉ model_order)
                          (df_columns sheet)) as Hs.
  { destruct (discover_models_rest (load_dataset sheet))
      as (rest & E & Hsorted & Hperm).
    exists rest. rewrite Hall in E, Hperm. split_and!; [done|done|].
    rewrite Hperm, list_filter_filter, load_dataset_columns, filter_app.
    assert (filter (fun c => (c ∉ model_order) /\ endswith c model_suffix = true)
              (filter (fun c => c ∉ df_columns sheet) default_cols) = [])
      as ->.
    { rewrite list_filter_filter.
      pose proof default_models_known as Hd.
      induction default_cols as [|c l IH]; [done|].
      apply Forall_cons_1 in Hd as [Hc Hl]. rewrite filter_cons, (IH Hl).
      destruct (decide _) as [[[? ?] ?]|]; tauto. }
    rewrite app_nil_r.
    by rewrite (list_filter_iff
                  (fun c => (c ∉ model_order) /\ endswith c model_suffix = true)
                  (fun c => endswith c model_suffix = true /\ c ∉ model_order))
      by (intros c; tauto). }
  split; [exact Hs|]. destruct Hs as (rest & E & _).
  assert (head MODELS = Some (of_string "gpt4o_layer2_annotations")) as Hh
    by (by rewrite E).
  assert (of_string "gpt4o_layer2_annotations" ∈ MODELS) as Hin
    by (rewrite E; apply list_elem_of_here).
  unfold annotate_model, first_model. rewrite Hh.
  destruct (opt_or _ _) as [m|]; [|eauto].
  destruct (bool_decide (m ∈ MODELS)) eqn:Hm; [|eauto].
  apply bool_decide_eq_true in Hm. eauto.
Qed.

End MoreData.

Lemma load_dataset_complete_sheet_witness :
  load_dataset {| df_columns := default_cols; df_rows := [∅] |}
  = {| df_columns := default_cols; df_rows := [∅] |}.
Proof.
  apply (load_dataset_complete_sheet
           {| df_columns := default_cols; df_rows := [∅] |}).
  simpl. intros c Hc. exact Hc.
Defined.
